(** * compile.py: the batch driver that turns wat/*.wat into wasm/*.wasm

    The script is

<<
      wats = glob("wat/*.wat")
      for w in wats:
          cmd = "./wat2wasm "+w+" -o wasm/"+w.split("/")[-1].replace(".wat",".wasm")
          print(cmd)
          os.system(cmd)
>>

    The development has four layers: the Python string primitives the
    script calls ([split], indexing with [-1], [replace]), the directory
    listing behind [glob], the command construction, and the loop with its
    two effects (console output and shell invocation).  Paths and
    commands are strings of 8-bit characters, as POSIX file names are. *)

From Stdlib Require Import String Ascii List Bool Arith Lia ZArith Permutation.
Import ListNotations.
Open Scope list_scope.
Open Scope string_scope.

(** ** Exceptions and results *)

Inductive exn : Type :=
| ValueError
| IndexError
| OSError
| UnicodeEncodeError.

Inductive result (A : Type) : Type :=
| Ok (a : A)
| Raise (e : exn).

Arguments Ok {A} a.
Arguments Raise {A} e.

Definition result_bind {A B : Type} (r : result A) (k : A -> result B) : result B :=
  match r with
  | Ok a => k a
  | Raise e => Raise e
  end.

Declare Scope result_scope.
Delimit Scope result_scope with result.
Notation "x <- r ;; k" := (result_bind r (fun x => k))
  (at level 61, r at next level, right associativity) : result_scope.

(** ** Python string primitives *)

Module Str.

(** [starts_with p s]: [s.startswith(p)]. *)
Fixpoint starts_with (p s : string) : bool :=
  match p with
  | EmptyString => true
  | String a p' =>
      match s with
      | EmptyString => false
      | String b s' => Ascii.eqb a b && starts_with p' s'
      end
  end.

(** [ends_with p s]: [s.endswith(p)]. *)
Fixpoint ends_with (p s : string) : bool :=
  String.eqb p s ||
  match s with
  | EmptyString => false
  | String _ s' => ends_with p s'
  end.

(** [contains sub s]: [sub in s]. *)
Fixpoint contains (sub s : string) : bool :=
  starts_with sub s ||
  match s with
  | EmptyString => false
  | String _ s' => contains sub s'
  end.

(** [drop n s]: the slice [s[n:]]. *)
Fixpoint drop (n : nat) (s : string) : string :=
  match n, s with
  | O, _ => s
  | S _, EmptyString => EmptyString
  | S k, String _ s' => drop k s'
  end.

(** [s.replace(old, new)] for a non-empty [old]: the occurrences of [old]
    are found scanning from the left, each one is replaced and the scan
    resumes after it, so ALL non-overlapping occurrences are rewritten.
    [skip] counts the characters of the occurrence just replaced that are
    still to be stepped over. *)
Fixpoint replace_from (old new : string) (skip : nat) (s : string) : string :=
  match s with
  | EmptyString => EmptyString
  | String c s' =>
      match skip with
      | S k => replace_from old new k s'
      | O =>
          if starts_with old s
          then new ++ replace_from old new (String.length old - 1) s'
          else String c (replace_from old new 0 s')
      end
  end.

(** With an empty [old], Python inserts [new] before every character and
    at the end. *)
Fixpoint replace_empty (new s : string) : string :=
  match s with
  | EmptyString => new
  | String c s' => new ++ String c (replace_empty new s')
  end.

Definition replace (old new s : string) : string :=
  match old with
  | EmptyString => replace_empty new s
  | String _ _ => replace_from old new 0 s
  end.

(** [s.split(sep)] for a non-empty [sep]: the pieces between the
    non-overlapping occurrences of [sep], found from the left.  The result
    always has at least one piece. *)
Fixpoint split_from (sep : string) (skip : nat) (s : string) : list string :=
  match s with
  | EmptyString => [EmptyString]
  | String c s' =>
      match skip with
      | S k => split_from sep k s'
      | O =>
          if starts_with sep s
          then EmptyString :: split_from sep (String.length sep - 1) s'
          else
            match split_from sep 0 s' with
            | piece :: pieces => String c piece :: pieces
            | [] => [String c EmptyString]
            end
      end
  end.

(** [s.split(sep)] raises [ValueError] on an empty separator. *)
Definition split (sep s : string) : result (list string) :=
  match sep with
  | EmptyString => Raise ValueError
  | String _ _ => Ok (split_from sep 0 s)
  end.

(** [l[-1]]: the last item, [IndexError] on an empty list. *)
Fixpoint item_last {A : Type} (l : list A) : result A :=
  match l with
  | [] => Raise IndexError
  | [x] => Ok x
  | _ :: l' => item_last l'
  end.

(** [sep.join(l)]. *)
Fixpoint join (sep : string) (l : list string) : string :=
  match l with
  | [] => EmptyString
  | [x] => x
  | x :: l' => x ++ sep ++ join sep l'
  end.

End Str.

(** ** POSIX path helpers ([posixpath]) *)

Module Path.

(** [p[:i], p[i:]] with [i = p.rfind("/") + 1]. *)
Fixpoint cut_at_last_sep (p : string) : string * string :=
  match p with
  | EmptyString => (EmptyString, EmptyString)
  | String c p' =>
      let (head, tail) := cut_at_last_sep p' in
      match head with
      | EmptyString =>
          if Ascii.eqb c "/" then (String c EmptyString, tail)
          else (EmptyString, String c tail)
      | String _ _ => (String c head, tail)
      end
  end.

(** [s.rstrip("/")]. *)
Fixpoint rstrip_sep (s : string) : string :=
  match s with
  | EmptyString => EmptyString
  | String c s' =>
      match rstrip_sep s' with
      | EmptyString => if Ascii.eqb c "/" then EmptyString else String c EmptyString
      | String _ _ as r => String c r
      end
  end.

(** [os.path.split(p)]: the head loses its trailing separators unless it
    consists of separators only. *)
Definition split (p : string) : string * string :=
  let (head, tail) := cut_at_last_sep p in
  match rstrip_sep head with
  | EmptyString => (head, tail)
  | String _ _ as stripped => (stripped, tail)
  end.

(** [os.path.join(a, b)]. *)
Definition join (a b : string) : string :=
  if Str.starts_with "/" b then b
  else if String.eqb a EmptyString || Str.ends_with "/" a then a ++ b
  else a ++ "/" ++ b.

End Path.

(** ** The file system seen by the script

    A directory is the list of its entries in the order [os.scandir]
    yields them (an order the operating system chooses); the special
    entries [.] and [..] are not listed. *)

#[local] Set Warnings "-register-all".

Inductive node : Type :=
| File (data : string)
| Dir (entries : list (string * node)).

Definition directory : Type := list (string * node).

Fixpoint lookup (name : string) (d : directory) : option node :=
  match d with
  | [] => None
  | (n, x) :: d' => if String.eqb n name then Some x else lookup name d'
  end.

(** A name a directory listing can hold: not empty, not one of the
    special entries, without the separator and without the NUL
    character. *)
Definition valid_name (n : string) : bool :=
  negb (String.eqb n EmptyString)
  && negb (String.eqb n ".")
  && negb (String.eqb n "..")
  && negb (Str.contains "/" n)
  && negb (Str.contains (String zero EmptyString) n).

Definition valid_dir (d : directory) : bool :=
  forallb (fun e => valid_name (fst e)) d.

(** A working directory whose own entries, and those of every directory
    directly below it, carry valid names. *)
Definition valid_cwd (cwd : directory) : bool :=
  valid_dir cwd
  && forallb (fun e => match snd e with
                       | Dir entries => valid_dir entries
                       | File _ => true
                       end) cwd.

(** [os.scandir(name)] for a relative path of one component, which is
    what the script's pattern has as its directory part: the names of the
    entries, [OSError] when [name] is missing ([FileNotFoundError]) or is
    not a directory ([NotADirectoryError]). *)
Definition scandir (cwd : directory) (name : string) : result (list string) :=
  match lookup name cwd with
  | Some (Dir entries) => Ok (map fst entries)
  | Some (File _) => Raise OSError
  | None => Raise OSError
  end.

(** ** [fnmatch] and [glob] *)

Module Glob.

(** The shell pattern language without bracket classes (the script's
    pattern has none): [*] matches any run of characters, [?] any one
    character, every other character itself. *)
Inductive token : Type :=
| Star
| AnyChar
| Lit (c : ascii).

Fixpoint translate (pat : string) : list token :=
  match pat with
  | EmptyString => []
  | String c pat' =>
      (if Ascii.eqb c "*" then Star
       else if Ascii.eqb c "?" then AnyChar
       else Lit c) :: translate pat'
  end.

(** Whole-string match, as the compiled pattern anchored with [\Z]. *)
Fixpoint matches (p : list token) (s : string) : bool :=
  match p with
  | [] => String.eqb s EmptyString
  | Lit c :: p' =>
      match s with
      | EmptyString => false
      | String d s' => Ascii.eqb c d && matches p' s'
      end
  | AnyChar :: p' =>
      match s with
      | EmptyString => false
      | String _ s' => matches p' s'
      end
  | Star :: p' =>
      (fix star (s : string) : bool :=
         matches p' s ||
         match s with
         | EmptyString => false
         | String _ s' => star s'
         end) s
  end.

(** [fnmatch.filter(names, pat)] on POSIX, where [normcase] is the
    identity. *)
Definition fnmatch_filter (names : list string) (pat : string) : list string :=
  filter (matches (translate pat)) names.

(** [_ishidden(path)]: [path[0] == "."].  It is only applied to the
    pattern and to names [scandir] yields, none of which is empty. *)
Definition ishidden (path : string) : bool :=
  match path with
  | String c _ => Ascii.eqb c "."
  | EmptyString => false
  end.

(** [_listdir(dirname)]: an [OSError] of [scandir] is caught and nothing is
    listed. *)
Definition listdir (cwd : directory) (dirname : string) : list string :=
  match scandir cwd dirname with
  | Ok names => names
  | Raise _ => []
  end.

(** [_glob1(dirname, pattern)] with [include_hidden] at its default
    [False]. *)
Definition glob1 (cwd : directory) (dirname pattern : string) : list string :=
  let names := listdir cwd dirname in
  let names :=
    if negb (ishidden pattern)
    then filter (fun x => negb (ishidden x)) names
    else names in
  fnmatch_filter names pattern.

(** [_iglob] on a pathname whose directory part has no wildcard and whose
    last component has one: the one directory is listed with [glob1] and
    the directory part is joined back onto every match. *)
Definition glob_in_dir (cwd : directory) (pathname : string) : list string :=
  let (dirname, basename) := Path.split pathname in
  map (Path.join dirname) (glob1 cwd dirname basename).

End Glob.

(** ** The script *)

(** [wats = glob("wat/*.wat")] *)
Definition wats (cwd : directory) : list string :=
  Glob.glob_in_dir cwd "wat/*.wat".

(** The names the pattern selects from a listing: not hidden, ending in
    [.wat]. *)
Definition selected (n : string) : bool :=
  negb (Glob.ishidden n) && Str.ends_with ".wat" n.

(** [w.split("/")[-1].replace(".wat",".wasm")] *)
Definition out_name (w : string) : result string :=
  (parts <- Str.split "/" w ;;
   base <- Str.item_last parts ;;
   Ok (Str.replace ".wat" ".wasm" base))%result.

(** [cmd = "./wat2wasm "+w+" -o wasm/"+w.split("/")[-1].replace(".wat",".wasm")],
    the sums associated to the left as Python does. *)
Definition cmd_of (w : string) : result string :=
  (name <- out_name w ;;
   Ok ((("./wat2wasm " ++ w) ++ " -o wasm/") ++ name))%result.

(** The path handed to the tool after its [-o] flag: the part of the
    command that follows [" -o "]. *)
Definition out_path (w : string) : result string :=
  (name <- out_name w ;;
   Ok ("wasm/" ++ name))%result.

(** *** Effects

    The console and the shell are observed through a trace, and both are
    oracles that see the trace so far.

    A [Print] event is recorded when [print] has written its line.  The
    console either takes the line or makes [print] raise: a
    [UnicodeEncodeError] when the encoding of standard output cannot
    represent the line (a file name holding a byte that is no UTF-8, under
    a strict encoding), an [OSError] when the write fails.

    A [System] event is recorded when [os.system] returns, with the status
    it returned and with [detached], which tells whether the command line
    left a process running behind it: [os.system] waits for the shell, and
    the shell does not wait for what a command line puts in the
    background.  The shell either answers, or the launch fails and
    [os.system] raises. *)

Inductive event : Type :=
| Print (line : string)
| System (cmd : string) (status : Z) (detached : bool).

Definition trace : Type := list event.

Definition console : Type := trace -> string -> result unit.

Definition shell : Type := trace -> string -> result (Z * bool).

Definition M (A : Type) : Type := trace -> trace * result A.

Definition ret {A : Type} (a : A) : M A := fun tr => (tr, Ok a).

Definition bind {A B : Type} (m : M A) (k : A -> M B) : M B :=
  fun tr =>
    match m tr with
    | (tr', Ok a) => k a tr'
    | (tr', Raise e) => (tr', Raise e)
    end.

Definition lift {A : Type} (r : result A) : M A := fun tr => (tr, r).

Declare Scope script_scope.
Delimit Scope script_scope with script.
Notation "x <- m ;; k" := (bind m (fun x => k))
  (at level 61, m at next level, right associativity) : script_scope.
Notation "m ;; k" := (bind m (fun _ => k))
  (at level 61, right associativity) : script_scope.

(** [print(line)]: the line goes to standard output, which flushes at
    every line when it is a console; when the console refuses the line,
    nothing is written and the exception leaves [print]. *)
Definition print (out : console) (line : string) : M unit :=
  fun tr =>
    match out tr line with
    | Ok _ => ((tr ++ [Print line])%list, Ok tt)
    | Raise e => (tr, Raise e)
    end.

(** [os.system(cmd)]: returns the status once the shell has finished. *)
Definition os_system (sh : shell) (cmd : string) : M Z :=
  fun tr =>
    match sh tr cmd with
    | Ok (status, detached) =>
        ((tr ++ [System cmd status detached])%list, Ok status)
    | Raise e => (tr, Raise e)
    end.

(** [for x in xs: body(x)] *)
Fixpoint for_each {A : Type} (xs : list A) (body : A -> M unit) : M unit :=
  match xs with
  | [] => ret tt
  | x :: xs' => (body x ;; for_each xs' body)%script
  end.

(** The loop body: the status [os.system] returns is dropped. *)
Definition step (sh : shell) (out : console) (w : string) : M unit :=
  (cmd <- lift (cmd_of w) ;;
   print out cmd ;;
   _ <- os_system sh cmd ;;
   ret tt)%script.

Definition main (sh : shell) (out : console) (cwd : directory) : M unit :=
  for_each (wats cwd) (step sh out).

(** What a trace shows: the lines printed and the commands run. *)
Definition printed (tr : trace) : list string :=
  flat_map (fun e => match e with Print l => [l] | System _ _ _ => [] end) tr.

Definition executed (tr : trace) : list string :=
  flat_map (fun e => match e with Print _ => [] | System c _ _ => [c] end) tr.

(** One complete pass of the loop: the command, the status the shell
    returned for it, and whether it left a process behind. *)
Record pass : Type := {
  pass_cmd : string;
  pass_status : Z;
  pass_detached : bool
}.

(** What a complete pass leaves in the trace: the command printed, then
    the command run. *)
Definition round (p : pass) : trace :=
  [Print (pass_cmd p); System (pass_cmd p) (pass_status p) (pass_detached p)].

Definition rounds (ps : list pass) : trace := flat_map round ps.

(** [builds w p]: the pass [p] is the one of input [w]. *)
Definition builds (w : string) (p : pass) : Prop :=
  cmd_of w = Ok (pass_cmd p).

(** [answers sh out tr ps]: starting from the trace [tr], the console took
    the command of every pass in [ps] and the shell answered it with the
    status and the flag the pass records. *)
Fixpoint answers (sh : shell) (out : console) (tr : trace) (ps : list pass) : Prop :=
  match ps with
  | [] => True
  | p :: ps' =>
      out tr (pass_cmd p) = Ok tt
      /\ sh (tr ++ [Print (pass_cmd p)])%list (pass_cmd p)
         = Ok (pass_status p, pass_detached p)
      /\ answers sh out (tr ++ round p)%list ps'
  end.

(** A shell whose launch mechanism never fails; commands may still exit
    with any status. *)
Definition launches (sh : shell) : Prop :=
  forall tr cmd, exists status detached, sh tr cmd = Ok (status, detached).

(** A console that takes every line. *)
Definition accepts (out : console) : Prop :=
  forall tr line, out tr line = Ok tt.



(** ** Sample inputs *)

Definition sample_cwd : directory :=
  [ ("wat", Dir [ ("a.wat", File "(module)");
                  ("c.txt", File "notes");
                  (".hidden.wat", File "(module)");
                  ("sub", Dir [ ("x.wat", File "(module)") ]);
                  ("b.wat", File "(module)") ]);
    ("wasm", Dir []);
    ("wat2wasm", File "") ].

Definition failing_shell : shell := fun _ _ => Ok (256%Z, false).

Definition succeeding_shell : shell := fun _ _ => Ok (0%Z, false).


Definition plain_console : console := fun _ _ => Ok tt.

(** A console with a strict UTF-8 encoding, as far as it matters here:
    byte 255 occurs in no UTF-8 text, and a line holding it is refused. *)
Definition strict_console : console :=
  fun _ line =>
    if Str.contains (String "255" EmptyString) line
    then Raise UnicodeEncodeError
    else Ok tt.

(** The directory of the enumeration example, listed by the system in an
    order of its own. *)
Definition three_files_cwd : directory :=
  [ ("wat", Dir [ ("c.txt", File "notes");
                  ("a.wat", File "(module)");
                  ("b.wat", File "(module)") ]) ].

(** The same working directory after a run: the outputs exist, and the
    system lists the inputs in another order. *)
Definition sample_cwd_after : directory :=
  [ ("wasm", Dir [ ("a.wasm", File "asm"); ("b.wasm", File "asm") ]);
    ("wat", Dir [ ("b.wat", File "(module)");
                  ("sub", Dir [ ("x.wat", File "(module)") ]);
                  ("a.wat", File "(module)");
                  (".hidden.wat", File "(module)");
                  ("c.txt", File "notes") ]);
    ("wat2wasm", File "") ].

(** A directory with a file whose name holds byte 255, listed in two
    orders. *)
Definition undecodable_cwd : directory :=
  [ ("wat", Dir [ ("a.wat", File "(module)");
                  (String "255" ".wat", File "(module)");
                  ("b.wat", File "(module)") ]) ].

Definition undecodable_cwd_reordered : directory :=
  [ ("wat", Dir [ (String "255" ".wat", File "(module)");
                  ("a.wat", File "(module)");
                  ("b.wat", File "(module)") ]) ].


(** * Properties *)

Example replace_ex1 : Str.replace ".wat" ".wasm" "a.wat" = "a.wasm".
Proof. reflexivity. Qed.
Example replace_ex2 : Str.replace ".wat" ".wasm" "a.wat.wat" = "a.wasm.wasm".
Proof. reflexivity. Qed.
Example replace_ex3 : Str.replace "aa" "b" "aaaaa" = "bba".
Proof. reflexivity. Qed.
Example replace_ex4 : Str.replace "" "-" "ab" = "-a-b-".
Proof. reflexivity. Qed.
Example split_ex1 : Str.split "/" "wat/a.wat" = Ok ["wat"; "a.wat"].
Proof. reflexivity. Qed.
Example split_ex2 : Str.split "/" "/a//b/" = Ok [""; "a"; ""; "b"; ""].
Proof. reflexivity. Qed.
Example split_ex3 : Str.split "ab" "xabyabab" = Ok ["x"; "y"; ""; ""].
Proof. reflexivity. Qed.
Example split_ex4 : Str.split "/" "" = Ok [""].
Proof. reflexivity. Qed.

Example path_split_ex1 : Path.split "wat/*.wat" = ("wat", "*.wat").
Proof. reflexivity. Qed.
Example path_split_ex2 : Path.split "/usr//" = ("/usr", "").
Proof. reflexivity. Qed.
Example path_split_ex3 : Path.split "//x" = ("//", "x").
Proof. reflexivity. Qed.
Example path_split_ex4 : Path.split "x" = ("", "x").
Proof. reflexivity. Qed.
Example wats_ex1 : wats sample_cwd = ["wat/a.wat"; "wat/b.wat"].
Proof. reflexivity. Qed.
Example cmd_ex1 : cmd_of "wat/a.wat" = Ok "./wat2wasm wat/a.wat -o wasm/a.wasm".
Proof. reflexivity. Qed.
Example main_ex1 :
  main failing_shell plain_console sample_cwd [] =
  ([Print "./wat2wasm wat/a.wat -o wasm/a.wasm";
    System "./wat2wasm wat/a.wat -o wasm/a.wasm" 256 false;
    Print "./wat2wasm wat/b.wat -o wasm/b.wasm";
    System "./wat2wasm wat/b.wat -o wasm/b.wasm" 256 false], Ok tt).
Proof. reflexivity. Qed.

(** ** Facts about strings *)

Lemma append_assoc (a b c : string) : (a ++ b) ++ c = a ++ (b ++ c).
Proof.
  induction a as [|x a IH]; simpl; [reflexivity|now rewrite IH].
Qed.

Lemma append_empty_r (a : string) : a ++ "" = a.
Proof.
  induction a as [|x a IH]; simpl; [reflexivity|now rewrite IH].
Qed.

Lemma length_append (a b : string) :
  String.length (a ++ b) = String.length a + String.length b.
Proof.
  induction a as [|x a IH]; simpl; [reflexivity|now rewrite IH].
Qed.

Lemma string_size_ind (P : string -> Prop) :
  (forall s, (forall t, String.length t < String.length s -> P t) -> P s) ->
  forall s, P s.
Proof.
  intros step s.
  remember (String.length s) as n eqn:En.
  revert s En.
  induction n as [n IH] using lt_wf_ind.
  intros s En. apply step. intros t Ht.
  apply (IH (String.length t)); [lia|reflexivity].
Qed.

Lemma starts_with_iff (p s : string) :
  Str.starts_with p s = true <-> exists r, s = p ++ r.
Proof.
  revert s. induction p as [|a p IH]; intros s; simpl.
  - split; [intros _; now exists s|reflexivity].
  - destruct s as [|b s].
    + split; [discriminate|intros [r Hr]; discriminate].
    + rewrite andb_true_iff, Ascii.eqb_eq, IH. split.
      * intros [-> [r ->]]. now exists r.
      * intros [r Hr]. injection Hr as -> ->. split; [reflexivity|now exists r].
Qed.

Lemma starts_with_append (p r : string) : Str.starts_with p (p ++ r) = true.
Proof.
  apply starts_with_iff. now exists r.
Qed.

Lemma starts_with_weaken (p a r : string) :
  Str.starts_with p a = true -> Str.starts_with p (a ++ r) = true.
Proof.
  rewrite !starts_with_iff. intros [q ->]. exists (q ++ r). apply append_assoc.
Qed.

Lemma ends_with_refl (p : string) : Str.ends_with p p = true.
Proof.
  destruct p; simpl; [reflexivity|].
  now rewrite Ascii.eqb_refl, String.eqb_refl.
Qed.

Lemma ends_with_iff (p s : string) :
  Str.ends_with p s = true <-> exists a, s = a ++ p.
Proof.
  split.
  - induction s as [|c s IH]; simpl.
    + rewrite orb_false_r, String.eqb_eq. intros ->. now exists "".
    + rewrite orb_true_iff, String.eqb_eq. intros [->|H].
      * now exists "".
      * destruct (IH H) as [a ->]. now exists (String c a).
  - intros [a ->]. induction a as [|c a IH]; simpl.
    + apply ends_with_refl.
    + rewrite IH. apply orb_true_r.
Qed.

Lemma contains_iff (sub s : string) :
  Str.contains sub s = true <-> exists a b, s = a ++ sub ++ b.
Proof.
  split.
  - induction s as [|c s IH]; simpl.
    + rewrite orb_false_r, starts_with_iff. intros [r Hr]. now exists "", r.
    + rewrite orb_true_iff, starts_with_iff. intros [[r Hr]|H].
      * now exists "", r.
      * destruct (IH H) as (a & b & ->). now exists (String c a), b.
  - intros (a & b & ->). induction a as [|c a IH].
    + simpl "++". destruct (sub ++ b) eqn:E; simpl; rewrite <- E;
        now rewrite starts_with_append.
    + simpl. rewrite IH. apply orb_true_r.
Qed.

Lemma contains_tail (sub : string) (c : ascii) (s : string) :
  Str.contains sub (String c s) = false -> Str.contains sub s = false.
Proof.
  simpl. now intros [_ H]%orb_false_iff.
Qed.

Lemma contains_head (sub s : string) :
  Str.contains sub s = false -> Str.starts_with sub s = false.
Proof.
  destruct s; simpl; now intros [H _]%orb_false_iff.
Qed.

(** The occurrences of a one-character string in a concatenation are
    those of the two parts. *)
Lemma contains_char_append (c : ascii) (x y : string) :
  Str.contains (String c "") (x ++ y)
  = Str.contains (String c "") x || Str.contains (String c "") y.
Proof.
  induction x as [|d x IH].
  - simpl. destruct y; reflexivity.
  - cbn [append Str.contains Str.starts_with]. rewrite IH.
    destruct (Ascii.eqb c d); simpl; [reflexivity|].
    destruct x; reflexivity.
Qed.

Lemma item_last_cons {A : Type} (x : A) (l : list A) :
  l <> [] -> Str.item_last (x :: l) = Str.item_last l.
Proof.
  destruct l; [congruence|reflexivity].
Qed.

(** ** Scanning for a word

    [replace] and [split] share their scan: the leftmost occurrence is
    taken and the scan resumes behind it.  The lemmas of this section hold
    for a word that no occurrence of itself can overlap from the left,
    which is the case of both words the script uses. *)

Section Scan.

Variable word : string.

Hypothesis word_nonempty : word <> "".

Hypothesis word_unbordered :
  forall a b, a <> "" ->
    Str.starts_with word (a ++ word ++ b) = true ->
    Str.starts_with word a = true.

Lemma contains_empty : Str.contains word "" = false.
Proof.
  destruct word; [congruence|reflexivity].
Qed.

(** A string that contains the word splits at its leftmost occurrence. *)
Lemma leftmost_occurrence (s : string) :
  Str.contains word s = true ->
  exists a b, s = a ++ word ++ b /\ Str.contains word a = false.
Proof.
  induction s as [|c s IH]; simpl.
  - rewrite orb_false_r. intros H. destruct word; [congruence|discriminate].
  - destruct (Str.starts_with word (String c s)) eqn:E.
    + intros _. apply starts_with_iff in E as [r Hr].
      exists "", r. split; [assumption|apply contains_empty].
    + simpl. intros H. destruct (IH H) as (a & b & -> & Ha).
      exists (String c a), b. split; [reflexivity|].
      simpl. rewrite Ha, orb_false_r.
      destruct (Str.starts_with word (String c a)) eqn:E'; [|reflexivity].
      apply (starts_with_weaken _ _ (word ++ b)) in E'.
      simpl in E'. congruence.
Qed.

Lemma no_early_hit (c : ascii) (a b : string) :
  Str.contains word (String c a) = false ->
  Str.starts_with word (String c a ++ word ++ b) = false.
Proof.
  intros H. apply contains_head in H.
  destruct (Str.starts_with word (String c a ++ word ++ b)) eqn:E; [|reflexivity].
  apply word_unbordered in E; congruence.
Qed.

(** *** [replace] *)

Variable new : string.

Lemma replace_from_skip (o rest : string) :
  Str.replace_from word new (String.length o) (o ++ rest)
  = Str.replace_from word new 0 rest.
Proof.
  induction o as [|c o IH]; simpl; [|assumption].
  destruct rest; reflexivity.
Qed.

Lemma replace_hit (rest : string) :
  Str.replace_from word new 0 (word ++ rest)
  = new ++ Str.replace_from word new 0 rest.
Proof.
  pose proof (starts_with_append word rest) as H.
  destruct word as [|c o] eqn:E; [congruence|].
  cbn [append Str.replace_from]. cbn [append] in H. rewrite H.
  cbn [String.length]. rewrite Nat.sub_succ, Nat.sub_0_r.
  now rewrite <- E, replace_from_skip.
Qed.

Lemma replace_leftmost (a b : string) :
  Str.contains word a = false ->
  Str.replace_from word new 0 (a ++ word ++ b)
  = a ++ new ++ Str.replace_from word new 0 b.
Proof.
  induction a as [|c a IH]; intros Ha.
  - apply replace_hit.
  - pose proof (no_early_hit c a b Ha) as Hmiss.
    cbn [append Str.replace_from] in *. rewrite Hmiss.
    now rewrite (IH (contains_tail _ _ _ Ha)).
Qed.

Lemma replace_absent (s : string) :
  Str.contains word s = false ->
  Str.replace_from word new 0 s = s.
Proof.
  induction s as [|c s IH]; intros Hs; [reflexivity|].
  cbn [Str.replace_from]. rewrite (contains_head _ _ Hs).
  now rewrite (IH (contains_tail _ _ _ Hs)).
Qed.

(** A string ending with the word is rewritten to one ending with the
    replacement. *)
Lemma replace_keeps_end (x : string) :
  exists y, Str.replace_from word new 0 (x ++ word) = y ++ new.
Proof.
  induction x as [x IH] using string_size_ind.
  destruct (Str.contains word x) eqn:E.
  - destruct (leftmost_occurrence x E) as (a & b & -> & Ha).
    destruct (IH b) as [y Hy].
    { rewrite !length_append. destruct word; [congruence|simpl; lia]. }
    exists (a ++ new ++ y).
    rewrite !append_assoc, (replace_leftmost _ (b ++ word) Ha), Hy.
    now rewrite ?append_assoc.
  - exists x.
    rewrite <- (append_empty_r word) at 2.
    now rewrite (replace_leftmost _ "" E), append_empty_r.
Qed.

(** *** [split] *)

Lemma split_from_nonempty (k : nat) (s : string) :
  Str.split_from word k s <> [].
Proof.
  revert k. induction s as [|c s IH]; intros k; simpl; [discriminate|].
  destruct k; [|apply IH].
  destruct (Str.starts_with word (String c s)); [discriminate|].
  destruct (Str.split_from word 0 s); discriminate.
Qed.

Lemma split_from_skip (o rest : string) :
  Str.split_from word (String.length o) (o ++ rest)
  = Str.split_from word 0 rest.
Proof.
  induction o as [|c o IH]; simpl; [|assumption].
  destruct rest; reflexivity.
Qed.

Lemma split_hit (rest : string) :
  Str.split_from word 0 (word ++ rest) = "" :: Str.split_from word 0 rest.
Proof.
  pose proof (starts_with_append word rest) as H.
  destruct word as [|c o] eqn:E; [congruence|].
  cbn [append Str.split_from]. cbn [append] in H. rewrite H.
  cbn [String.length]. rewrite Nat.sub_succ, Nat.sub_0_r.
  now rewrite <- E, split_from_skip.
Qed.

Lemma split_leftmost (a b : string) :
  Str.contains word a = false ->
  Str.split_from word 0 (a ++ word ++ b) = a :: Str.split_from word 0 b.
Proof.
  induction a as [|c a IH]; intros Ha.
  - apply split_hit.
  - pose proof (no_early_hit c a b Ha) as Hmiss.
    cbn [append Str.split_from] in *. rewrite Hmiss.
    now rewrite (IH (contains_tail _ _ _ Ha)).
Qed.

Lemma split_absent (s : string) :
  Str.contains word s = false ->
  Str.split_from word 0 s = [s].
Proof.
  induction s as [|c s IH]; intros Hs; [reflexivity|].
  cbn [Str.split_from]. rewrite (contains_head _ _ Hs).
  now rewrite (IH (contains_tail _ _ _ Hs)).
Qed.

(** The last piece always exists and holds no occurrence of the word. *)
Lemma split_last_piece (s : string) :
  exists piece,
    Str.item_last (Str.split_from word 0 s) = Ok piece
    /\ Str.contains word piece = false.
Proof.
  induction s as [s IH] using string_size_ind.
  destruct (Str.contains word s) eqn:E.
  - destruct (leftmost_occurrence s E) as (a & b & -> & Ha).
    destruct (IH b) as (piece & Hp & Hc).
    { rewrite !length_append. destruct word; [congruence|simpl; lia]. }
    exists piece. split; [|assumption].
    rewrite (split_leftmost _ _ Ha), item_last_cons; [assumption|].
    apply split_from_nonempty.
  - exists s. now rewrite (split_absent _ E).
Qed.

(** Behind the last occurrence comes the last piece. *)
Lemma split_last_after (x n : string) :
  Str.contains word n = false ->
  Str.item_last (Str.split_from word 0 (x ++ word ++ n)) = Ok n.
Proof.
  intros Hn.
  induction x as [x IH] using string_size_ind.
  destruct (Str.contains word x) eqn:E.
  - destruct (leftmost_occurrence x E) as (a & b & -> & Ha).
    rewrite !append_assoc, (split_leftmost _ _ Ha).
    rewrite item_last_cons by apply split_from_nonempty.
    apply IH.
    rewrite !length_append. destruct word; [congruence|simpl; lia].
  - rewrite (split_leftmost _ _ E), (split_absent _ Hn). reflexivity.
Qed.

End Scan.

(** ** The two words of the script: the separator and the extension *)

Lemma sep_unbordered (a b : string) :
  a <> "" ->
  Str.starts_with "/" (a ++ "/" ++ b) = true ->
  Str.starts_with "/" a = true.
Proof.
  destruct a as [|c a]; [congruence|].
  intros _. simpl. now rewrite !andb_true_r.
Qed.

Lemma ext_unbordered (a b : string) :
  a <> "" ->
  Str.starts_with ".wat" (a ++ ".wat" ++ b) = true ->
  Str.starts_with ".wat" a = true.
Proof.
  destruct a as [|c1 [|c2 [|c3 [|c4 a]]]]; [congruence|intros _; simpl ..];
    rewrite ?andb_false_r; try discriminate; trivial.
Qed.

Lemma sep_nonempty : "/" <> "".
Proof. discriminate. Qed.

Lemma ext_nonempty : ".wat" <> "".
Proof. discriminate. Qed.

Lemma contains_sep_cons (c : ascii) (s : string) :
  Str.contains "/" (String c s) = Ascii.eqb "/" c || Str.contains "/" s.
Proof.
  simpl. now rewrite andb_true_r.
Qed.

(** Appending text without a separator extends the last piece. *)
Lemma last_piece_append (x y : string) :
  Str.contains "/" y = false ->
  Str.item_last (Str.split_from "/" 0 (x ++ y))
  = (piece <- Str.item_last (Str.split_from "/" 0 x) ;; Ok (piece ++ y))%result.
Proof.
  intros Hy.
  induction x as [x IH] using string_size_ind.
  destruct (Str.contains "/" x) eqn:E.
  - destruct (leftmost_occurrence "/" sep_nonempty sep_unbordered x E)
      as (a & b & -> & Ha).
    rewrite !append_assoc.
    rewrite !(split_leftmost "/" sep_nonempty sep_unbordered _ _ Ha).
    rewrite !item_last_cons by apply split_from_nonempty.
    apply IH. rewrite !length_append. simpl. lia.
  - assert (Hxy : Str.contains "/" (x ++ y) = false)
      by now rewrite contains_char_append, E, Hy.
    now rewrite (split_absent _ _ Hxy), (split_absent _ _ E).
Qed.

(** A replacement without a separator introduces none. *)
Lemma replace_no_sep (old new : string) (k : nat) (s : string) :
  Str.contains "/" new = false ->
  Str.contains "/" s = false ->
  Str.contains "/" (Str.replace_from old new k s) = false.
Proof.
  intros Hnew. revert k.
  induction s as [|c s IH]; intros k Hs; [reflexivity|].
  rewrite contains_sep_cons in Hs. apply orb_false_iff in Hs as [Hc Hs].
  cbn [Str.replace_from]. destruct k; [|now apply IH].
  destruct (Str.starts_with old (String c s)).
  - rewrite contains_char_append, Hnew. now apply IH.
  - rewrite contains_sep_cons, Hc. now apply IH.
Qed.

(** ** Facts about the listing *)

Lemma matches_ext (s : string) :
  Glob.matches (Glob.translate ".wat") s = String.eqb ".wat" s.
Proof.
  destruct s as [|c1 [|c2 [|c3 [|c4 [|c5 s]]]]]; reflexivity.
Qed.

(** The script's pattern selects the names that end in [.wat]. *)
Lemma matches_star_ext (s : string) :
  Glob.matches (Glob.translate "*.wat") s = Str.ends_with ".wat" s.
Proof.
  change (Glob.translate "*.wat") with (Glob.Star :: Glob.translate ".wat").
  induction s as [|c s IH].
  - reflexivity.
  - cbn [Glob.matches Str.ends_with] in *. rewrite IH.
    now rewrite (matches_ext (String c s)).
Qed.

Lemma wats_listing (cwd : directory) :
  wats cwd = map (Path.join "wat") (filter selected (Glob.listdir cwd "wat")).
Proof.
  unfold wats, Glob.glob_in_dir.
  change (Path.split "wat/*.wat") with ("wat", "*.wat").
  unfold Glob.glob1, Glob.fnmatch_filter.
  change (negb (Glob.ishidden "*.wat")) with true. cbv iota.
  f_equal.
  induction (Glob.listdir cwd "wat") as [|n l IH]; [reflexivity|].
  cbn [filter]. unfold selected at 1. rewrite <- matches_star_ext.
  destruct (Glob.ishidden n); cbn [negb andb]; [assumption|].
  cbn [filter]. destruct (Glob.matches _ n); now rewrite IH.
Qed.

Lemma join_wat (n : string) :
  Str.contains "/" n = false -> Path.join "wat" n = "wat/" ++ n.
Proof.
  intros H. apply contains_head in H. unfold Path.join. now rewrite H.
Qed.

Lemma listdir_valid (cwd : directory) (d n : string) :
  valid_cwd cwd = true -> In n (Glob.listdir cwd d) -> valid_name n = true.
Proof.
  unfold valid_cwd, Glob.listdir, scandir.
  intros [_ Hsub]%andb_true_iff.
  induction cwd as [|[m x] cwd IH]; cbn [lookup]; [intros []|].
  cbn [forallb snd] in Hsub. apply andb_true_iff in Hsub as [Hx Hsub].
  destruct (String.eqb m d); [|now apply IH].
  destruct x as [|entries]; [intros []|].
  intros Hin. apply in_map_iff in Hin as [e [<- He]].
  unfold valid_dir in Hx. rewrite forallb_forall in Hx. now apply Hx.
Qed.

Lemma valid_name_no_sep (n : string) :
  valid_name n = true -> Str.contains "/" n = false.
Proof.
  unfold valid_name. rewrite !andb_true_iff, !negb_true_iff. tauto.
Qed.

(** Every selected path is the directory, a separator and the name of one
    entry that is not hidden and ends in [.wat]. *)
Lemma wats_inv (cwd : directory) (w : string) :
  In w (wats cwd) ->
  exists n, In n (Glob.listdir cwd "wat")
            /\ w = Path.join "wat" n
            /\ Glob.ishidden n = false
            /\ Str.ends_with ".wat" n = true.
Proof.
  rewrite wats_listing, in_map_iff.
  intros [n [<- Hn]]. apply filter_In in Hn as [Hin Hsel].
  unfold selected in Hsel. apply andb_true_iff in Hsel as [Hh He].
  apply negb_true_iff in Hh. now exists n.
Qed.

Lemma wats_end (cwd : directory) (w : string) :
  In w (wats cwd) -> Str.ends_with ".wat" w = true.
Proof.
  intros (n & _ & -> & _ & He)%wats_inv.
  unfold Path.join. destruct (Str.starts_with "/" n); [assumption|].
  apply ends_with_iff in He as [a ->].
  cbn [String.eqb orb Str.ends_with]. apply ends_with_iff.
  exists ("wat/" ++ a). now rewrite !append_assoc.
Qed.

(** ** Facts about the command construction *)

Lemma out_name_total (w : string) :
  exists name, out_name w = Ok name /\ Str.contains "/" name = false.
Proof.
  destruct (split_last_piece "/" sep_nonempty sep_unbordered w)
    as (piece & Hp & Hc).
  exists (Str.replace ".wat" ".wasm" piece). split.
  - unfold out_name. cbn [Str.split result_bind]. now rewrite Hp.
  - now apply replace_no_sep.
Qed.

Lemma cmd_of_total (w : string) : exists c, cmd_of w = Ok c.
Proof.
  destruct (out_name_total w) as (name & Hn & _).
  unfold cmd_of. rewrite Hn. cbn [result_bind]. eauto.
Qed.

(** The name derived from a path that ends in the base name [n]. *)
Lemma out_name_base (d n : string) :
  Str.contains "/" n = false ->
  out_name (d ++ "/" ++ n) = Ok (Str.replace ".wat" ".wasm" n).
Proof.
  intros Hn. unfold out_name. cbn [Str.split result_bind].
  now rewrite (split_last_after "/" sep_nonempty sep_unbordered d n Hn).
Qed.

(** ** Facts about the loop *)

Lemma printed_app (t u : trace) :
  printed (t ++ u)%list = (printed t ++ printed u)%list.
Proof. apply flat_map_app. Qed.

Lemma executed_app (t u : trace) :
  executed (t ++ u)%list = (executed t ++ executed u)%list.
Proof. apply flat_map_app. Qed.

Lemma printed_rounds (ps : list pass) : printed (rounds ps) = map pass_cmd ps.
Proof.
  induction ps as [|p ps IH]; [reflexivity|].
  unfold rounds in *. cbn [flat_map]. rewrite printed_app, IH. reflexivity.
Qed.

Lemma executed_rounds (ps : list pass) : executed (rounds ps) = map pass_cmd ps.
Proof.
  induction ps as [|p ps IH]; [reflexivity|].
  unfold rounds in *. cbn [flat_map]. rewrite executed_app, IH. reflexivity.
Qed.

Lemma rounds_cons (p : pass) (ps : list pass) :
  rounds (p :: ps) = (round p ++ rounds ps)%list.
Proof. reflexivity. Qed.

(** One pass: the command is built, printed if the console takes it, and
    then handed to the shell. *)
Lemma step_run (sh : shell) (out : console) (w : string) (tr : trace) :
  exists c,
    cmd_of w = Ok c /\
    step sh out w tr =
      match out tr c with
      | Raise e => (tr, Raise e)
      | Ok _ =>
          match sh (tr ++ [Print c])%list c with
          | Ok (status, detached) =>
              ((tr ++ round {| pass_cmd := c;
                               pass_status := status;
                               pass_detached := detached |})%list, Ok tt)
          | Raise e => ((tr ++ [Print c])%list, Raise e)
          end
      end.
Proof.
  destruct (cmd_of_total w) as [c Hc]. exists c. split; [assumption|].
  unfold step, bind, lift, print, os_system, ret. rewrite Hc.
  destruct (out tr c) as [u|e]; [|reflexivity].
  destruct (sh (tr ++ [Print c])%list c) as [[status detached]|e]; [|reflexivity].
  unfold round. cbn [pass_cmd pass_status pass_detached].
  now rewrite <- app_assoc.
Qed.

Lemma for_each_cons
    (sh : shell) (out : console) (w : string) (ws : list string) (tr : trace) :
  for_each (w :: ws) (step sh out) tr
  = match step sh out w tr with
    | (tr', Ok _) => for_each ws (step sh out) tr'
    | (tr', Raise e) => (tr', Raise e)
    end.
Proof. reflexivity. Qed.

(** The whole loop, whatever console and shell do.  Either every input
    had its pass; or the console refused the command of one input, which
    then was neither printed nor run; or the launch of one command failed
    right after that command was printed.  In the last two cases the
    inputs before that one had their passes and the inputs after it were
    not reached. *)
Lemma for_each_trace
    (sh : shell) (out : console) (ws : list string) (tr : trace) :
  exists passes,
    answers sh out tr passes
    /\ ((for_each ws (step sh out) tr = ((tr ++ rounds passes)%list, Ok tt)
         /\ Forall2 builds ws passes)
        \/
        (exists done w rest c e,
            ws = (done ++ w :: rest)%list
            /\ Forall2 builds done passes
            /\ cmd_of w = Ok c
            /\ ((out (tr ++ rounds passes)%list c = Raise e
                 /\ for_each ws (step sh out) tr
                    = ((tr ++ rounds passes)%list, Raise e))
                \/
                (sh (tr ++ rounds passes ++ [Print c])%list c = Raise e
                 /\ for_each ws (step sh out) tr
                    = ((tr ++ rounds passes ++ [Print c])%list, Raise e))))).
Proof.
  revert tr. induction ws as [|w ws IH]; intros tr.
  - exists []. split; [exact I|]. left. cbn. rewrite app_nil_r.
    split; [reflexivity|constructor].
  - rewrite (for_each_cons sh out w ws tr).
    destruct (step_run sh out w tr) as (c & Hc & Hstep). rewrite Hstep. clear Hstep.
    destruct (out tr c) as [[]|e] eqn:Hout.
    + destruct (sh (tr ++ [Print c])%list c) as [[status detached]|e] eqn:Hsh.
      * set (p := {| pass_cmd := c; pass_status := status;
                     pass_detached := detached |}).
        destruct (IH (tr ++ round p)%list) as (passes & Hans & Hcases).
        exists (p :: passes). split; [cbn [answers]; auto|].
        rewrite rounds_cons.
        destruct Hcases as [[Hrun Hall]|Hfail].
        -- left. rewrite <- app_assoc in Hrun.
           split; [exact Hrun|]. constructor; assumption.
        -- destruct Hfail as (done & w' & rest & c' & e & -> & Hdone & Hc' & Hend).
           right. exists (w :: done), w', rest, c', e.
           split; [reflexivity|]. split; [constructor; assumption|].
           split; [exact Hc'|].
           rewrite <- !app_assoc in Hend. rewrite <- !app_assoc.
           exact Hend.
      * exists []. split; [exact I|]. right. exists [], w, ws, c, e.
        cbn. rewrite app_nil_r.
        split; [reflexivity|]. split; [constructor|]. split; [exact Hc|].
        right. split; [exact Hsh|reflexivity].
    + exists []. split; [exact I|]. right. exists [], w, ws, c, e.
      cbn. rewrite app_nil_r.
      split; [reflexivity|]. split; [constructor|]. split; [exact Hc|].
      left. split; [exact Hout|reflexivity].
Qed.

(** With a console that takes every line and a shell that always
    launches, every input has its pass. *)
Lemma for_each_completes
    (sh : shell) (out : console) (ws : list string) (tr : trace) :
  launches sh ->
  accepts out ->
  exists passes,
    for_each ws (step sh out) tr = ((tr ++ rounds passes)%list, Ok tt)
    /\ Forall2 builds ws passes.
Proof.
  intros Hsh Hout.
  destruct (for_each_trace sh out ws tr) as (passes & _ & [H|H]);
    [now exists passes|].
  destruct H as (done & w & rest & c & e & _ & _ & _ & [[Hfail _]|[Hfail _]]).
  - rewrite (Hout _ c) in Hfail. discriminate Hfail.
  - destruct (Hsh (tr ++ rounds passes ++ [Print c])%list c)
      as (status & detached & Hok).
    rewrite Hok in Hfail. discriminate Hfail.
Qed.

(** A run that ended normally gave every input its pass. *)
Lemma completed_run
    (sh : shell) (out : console) (ws : list string) (tr tr' : trace) :
  for_each ws (step sh out) tr = (tr', Ok tt) ->
  exists passes,
    tr' = (tr ++ rounds passes)%list /\ Forall2 builds ws passes.
Proof.
  intros Hrun.
  destruct (for_each_trace sh out ws tr) as (passes & _ & [[H Hall]|H]).
  - exists passes. split; [congruence|exact Hall].
  - destruct H as (done & w & rest & c & e & _ & _ & _ & [[_ H]|[_ H]]);
      rewrite H in Hrun; discriminate Hrun.
Qed.

(** The command [cmd_of] builds, as a string. *)
Lemma builds_commands (ws : list string) (passes : list pass) :
  Forall2 builds ws passes ->
  map pass_cmd passes
  = map (fun w => match cmd_of w with Ok c => c | Raise _ => "" end) ws.
Proof.
  induction 1 as [|w p ws passes Hb _ IH]; [reflexivity|].
  cbn [map]. unfold builds in Hb. now rewrite Hb, IH.
Qed.

(** What any run prints and executes: the commands of the inputs before
    the point where it ended, and possibly the print of one more. *)
Lemma run_prefix
    (sh : shell) (out : console) (ws : list string)
    (tr : trace) (outcome : result unit) :
  for_each ws (step sh out) [] = (tr, outcome) ->
  exists done rest passes,
    ws = (done ++ rest)%list
    /\ Forall2 builds done passes
    /\ executed tr = map pass_cmd passes
    /\ ((outcome = Ok tt /\ rest = [] /\ printed tr = executed tr)
        \/ (exists e, outcome = Raise e /\ rest <> []
                      /\ printed tr = executed tr)
        \/ (exists e w rest' c,
               outcome = Raise e /\ rest = w :: rest' /\ cmd_of w = Ok c
               /\ printed tr = (executed tr ++ [c])%list)).
Proof.
  intros Hrun.
  destruct (for_each_trace sh out ws []) as (passes & _ & [[H Hall]|H]).
  - rewrite H in Hrun. injection Hrun as <- <-. cbn [app].
    exists ws, [], passes. rewrite app_nil_r, printed_rounds, executed_rounds.
    repeat split; try assumption. left. auto.
  - destruct H as (done & w & rest & c & e & -> & Hdone & Hc & [[_ H]|[_ H]]);
      rewrite H in Hrun; injection Hrun as <- <-; cbn [app];
      exists done, (w :: rest), passes.
    + rewrite printed_rounds, executed_rounds.
      repeat split; try assumption. right. left. exists e.
      repeat split. discriminate.
    + rewrite printed_app, executed_app, printed_rounds, executed_rounds.
      cbn. rewrite app_nil_r.
      repeat split; try assumption. right. right. exists e, w, rest, c. auto.
Qed.




Lemma Permutation_filter {A : Type} (f : A -> bool) (l l' : list A) :
  Permutation l l' -> Permutation (filter f l) (filter f l').
Proof.
  induction 1 as [|x l l' _ IH|x y l|l l' l'' _ IH1 _ IH2]; cbn [filter].
  - constructor.
  - destruct (f x); [now constructor|assumption].
  - destruct (f x), (f y); try reflexivity. constructor.
  - now transitivity (filter f l').
Qed.

Lemma builds_executed (ws : list string) (passes : list pass) :
  Forall2 builds ws passes ->
  Forall2 (fun w c => cmd_of w = Ok c) ws (map pass_cmd passes).
Proof.
  induction 1; cbn [map]; constructor; assumption.
Qed.

Lemma builds_origin (ws : list string) (passes : list pass) (c : string) :
  Forall2 builds ws passes ->
  In c (map pass_cmd passes) ->
  exists w, In w ws /\ cmd_of w = Ok c.
Proof.
  induction 1 as [|w p ws passes Hb _ IH]; cbn [map In]; [intros []|].
  intros [<-|Hin].
  - exists w. split; [now left|exact Hb].
  - destruct (IH Hin) as (w' & Hw & Hc). exists w'. split; [now right|exact Hc].
Qed.

(** A valid working directory lists valid names, so every selected path
    is [wat/] followed by a name without separator that ends in [.wat]. *)
Lemma wats_shape (cwd : directory) (w : string) :
  valid_cwd cwd = true ->
  In w (wats cwd) ->
  exists stem,
    w = "wat/" ++ stem ++ ".wat"
    /\ Str.contains "/" (stem ++ ".wat") = false
    /\ Glob.ishidden (stem ++ ".wat") = false.
Proof.
  intros Hv (n & Hin & -> & Hh & He)%wats_inv.
  pose proof (valid_name_no_sep _ (listdir_valid cwd "wat" n Hv Hin)) as Hs.
  apply ends_with_iff in He as [stem ->].
  exists stem. rewrite (join_wat _ Hs). auto.
Qed.

(** * The claims *)

(** ** Command construction *)

(** C1. For every input path, the command is the tool path, the input
    path, the flag [-o] and the computed output path, joined by single
    spaces in that order; for [wat/a.wat] it is
    [./wat2wasm wat/a.wat -o wasm/a.wasm]. *)
Theorem invocation_shape :
  (forall w, exists out,
      out_path w = Ok out
      /\ cmd_of w = Ok (Str.join " " ["./wat2wasm"; w; "-o"; out]))
  /\ cmd_of "wat/a.wat" = Ok "./wat2wasm wat/a.wat -o wasm/a.wasm".
Proof.
  split; [|reflexivity].
  intros w. destruct (out_name_total w) as (name & Hn & _).
  exists ("wasm/" ++ name). unfold out_path, cmd_of. rewrite Hn.
  cbn [result_bind Str.join]. split; [reflexivity|].
  f_equal. now rewrite !append_assoc.
Qed.

(** C2, as the code has it.  For every selected path [wat/<stem>.wat] the
    output path is [wasm/] followed by the base name with every
    occurrence of [.wat] replaced by [.wasm]; when [.wat] occurs in the
    base name only as its extension, this is [wasm/<stem>.wasm]. *)
Theorem name_derivation (cwd : directory) (w : string) :
  valid_cwd cwd = true ->
  In w (wats cwd) ->
  exists stem,
    w = "wat/" ++ stem ++ ".wat"
    /\ out_path w = Ok ("wasm/" ++ Str.replace ".wat" ".wasm" (stem ++ ".wat"))
    /\ (Str.contains ".wat" stem = false ->
        out_path w = Ok ("wasm/" ++ stem ++ ".wasm")).
Proof.
  intros Hv Hin. destruct (wats_shape cwd w Hv Hin) as (stem & -> & Hs & _).
  exists stem. split; [reflexivity|].
  assert (Hout : out_path ("wat/" ++ stem ++ ".wat")
                 = Ok ("wasm/" ++ Str.replace ".wat" ".wasm" (stem ++ ".wat"))).
  { unfold out_path.
    change ("wat/" ++ stem ++ ".wat") with ("wat" ++ "/" ++ (stem ++ ".wat")).
    now rewrite (out_name_base "wat" _ Hs). }
  split; [exact Hout|].
  intros Hstem. rewrite Hout. do 2 f_equal.
  change (Str.replace ".wat" ".wasm" (stem ++ ".wat"))
    with (Str.replace_from ".wat" ".wasm" 0 (stem ++ ".wat" ++ "")).
  now rewrite (replace_leftmost ".wat" ext_nonempty ext_unbordered ".wasm" _ "" Hstem).
Qed.

Lemma name_derivation_witness :
  exists stem,
    "wat/a.wat" = "wat/" ++ stem ++ ".wat"
    /\ out_path "wat/a.wat"
       = Ok ("wasm/" ++ Str.replace ".wat" ".wasm" (stem ++ ".wat"))
    /\ (Str.contains ".wat" stem = false ->
        out_path "wat/a.wat" = Ok ("wasm/" ++ stem ++ ".wasm")).
Proof.
  apply (name_derivation sample_cwd "wat/a.wat").
  - reflexivity.
  - vm_compute. left. reflexivity.
Defined.

(** C2 as the spec words it fails: a file named [a.wat.wat] is selected,
    and its output path is [wasm/a.wasm.wasm], not the base name with its
    extension replaced, [wasm/a.wat.wasm]. *)
Lemma name_derivation_not_extension_only :
  In "wat/a.wat.wat" (wats [("wat", Dir [("a.wat.wat", File "")])])
  /\ out_path "wat/a.wat.wat" = Ok "wasm/a.wasm.wasm"
  /\ ~ (forall cwd w stem,
          In w (wats cwd) ->
          w = "wat/" ++ stem ++ ".wat" ->
          out_path w = Ok ("wasm/" ++ stem ++ ".wasm")).
Proof.
  split; [now left|]. split; [reflexivity|].
  intros H.
  specialize (H [("wat", Dir [("a.wat.wat", File "")])] "wat/a.wat.wat" "a.wat").
  assert (E : out_path "wat/a.wat.wat" = Ok "wasm/a.wat.wasm")
    by (apply H; [now left|reflexivity]).
  discriminate E.
Qed.

(** C3, as the code has it.  The substitution rewrites every occurrence
    of [.wat], leftmost first: the text before the leftmost occurrence is
    kept, the occurrence becomes [.wasm], and the rest is rewritten in
    turn.  Hence a trailing [.wat] always becomes a trailing [.wasm]; it
    is the only change when [.wat] occurs nowhere before it; and a name
    without any occurrence of [.wat] is left unchanged. *)
Theorem substitution_is_substring_replace :
  (forall a b,
      Str.contains ".wat" a = false ->
      Str.replace ".wat" ".wasm" (a ++ ".wat" ++ b)
      = a ++ ".wasm" ++ Str.replace ".wat" ".wasm" b)
  /\ (forall x, exists y, Str.replace ".wat" ".wasm" (x ++ ".wat") = y ++ ".wasm")
  /\ (forall stem,
        Str.contains ".wat" stem = false ->
        Str.replace ".wat" ".wasm" (stem ++ ".wat") = stem ++ ".wasm")
  /\ (forall s,
        Str.contains ".wat" s = false ->
        Str.replace ".wat" ".wasm" s = s).
Proof.
  repeat split.
  - intros a b Ha.
    apply (replace_leftmost ".wat" ext_nonempty ext_unbordered ".wasm" a b Ha).
  - intros x. apply (replace_keeps_end ".wat" ext_nonempty ext_unbordered ".wasm" x).
  - intros stem Hs.
    change (Str.replace ".wat" ".wasm" (stem ++ ".wat"))
      with (Str.replace_from ".wat" ".wasm" 0 (stem ++ ".wat" ++ "")).
    now rewrite (replace_leftmost ".wat" ext_nonempty ext_unbordered ".wasm" _ "" Hs).
  - intros s Hs. apply (replace_absent ".wat" ".wasm" s Hs).
Qed.

Lemma substitution_is_substring_replace_witness :
  Str.replace ".wat" ".wasm" ("x" ++ ".wat" ++ ".wat") = "x.wasm.wasm"
  /\ Str.replace ".wat" ".wasm" ("a" ++ ".wat") = "a.wasm"
  /\ Str.replace ".wat" ".wasm" "c.txt" = "c.txt".
Proof.
  destruct substitution_is_substring_replace as (Hleft & _ & Hstem & Hnone).
  split; [|split].
  - apply (Hleft "x" ".wat"). reflexivity.
  - apply (Hstem "a"). reflexivity.
  - apply (Hnone "c.txt"). reflexivity.
Defined.

(** C3 as the spec words it fails on both counts: an occurrence of
    [.wat] before the suffix is rewritten too, and a name that does not
    end in [.wat] but contains it is changed. *)
Lemma substitution_not_suffix_only :
  Str.replace ".wat" ".wasm" "a.wat.wat" = "a.wasm.wasm"
  /\ Str.replace ".wat" ".wasm" "a.wat.txt" = "a.wasm.txt"
  /\ ~ (forall stem,
          Str.replace ".wat" ".wasm" (stem ++ ".wat") = stem ++ ".wasm")
  /\ ~ (forall s,
          Str.ends_with ".wat" s = false ->
          Str.replace ".wat" ".wasm" s = s).
Proof.
  split; [reflexivity|]. split; [reflexivity|]. split.
  - intros H. specialize (H "a.wat"). discriminate H.
  - intros H. specialize (H "a.wat.txt" eq_refl). discriminate H.
Qed.

(** ** Enumeration *)

(** C4. In an input directory that holds exactly [a.wat], [b.wat] and
    [c.txt], in whatever order the system lists them, exactly [wat/a.wat]
    and [wat/b.wat] are selected, and [wat/c.txt] is not. *)
Theorem enumeration_extension_exact (cwd : directory) (names : list string) :
  scandir cwd "wat" = Ok names ->
  Permutation names ["a.wat"; "b.wat"; "c.txt"] ->
  Permutation (wats cwd) ["wat/a.wat"; "wat/b.wat"]
  /\ ~ In "wat/c.txt" (wats cwd).
Proof.
  intros Hscan Hperm.
  assert (Hw : Permutation (wats cwd) ["wat/a.wat"; "wat/b.wat"]).
  { rewrite wats_listing. unfold Glob.listdir. rewrite Hscan.
    apply (Permutation_filter selected) in Hperm.
    apply (Permutation_map (Path.join "wat")) in Hperm.
    exact Hperm. }
  split; [exact Hw|].
  intros Hin. apply (Permutation_in _ Hw) in Hin.
  destruct Hin as [H|[H|[]]]; discriminate H.
Qed.

Lemma enumeration_extension_exact_witness :
  Permutation (wats three_files_cwd) ["wat/a.wat"; "wat/b.wat"]
  /\ ~ In "wat/c.txt" (wats three_files_cwd).
Proof.
  apply (enumeration_extension_exact three_files_cwd ["c.txt"; "a.wat"; "b.wat"]).
  - reflexivity.
  - apply (Permutation_app_comm ["c.txt"] ["a.wat"; "b.wat"]).
Defined.

(** C9. In a valid working directory no path below a subdirectory of
    [wat] and no path whose base name begins with a dot is selected, and
    every command the run prints or executes is the command of a selected
    path. *)
Theorem enumeration_flat_and_visible (cwd : directory) :
  valid_cwd cwd = true ->
  (forall sub x, ~ In ("wat/" ++ sub ++ "/" ++ x) (wats cwd))
  /\ (forall n, Glob.ishidden n = true -> ~ In ("wat/" ++ n) (wats cwd))
  /\ (forall sh out tr outcome c,
         main sh out cwd [] = (tr, outcome) ->
         In c (printed tr) \/ In c (executed tr) ->
         exists w, In w (wats cwd) /\ cmd_of w = Ok c).
Proof.
  intros Hv. split; [|split].
  - intros sub x Hin.
    destruct (wats_shape cwd _ Hv Hin) as (stem & Heq & Hs & _).
    injection Heq as Heq. rewrite <- Heq, contains_char_append in Hs.
    rewrite contains_sep_cons, orb_true_r in Hs. discriminate Hs.
  - intros n Hn Hin.
    destruct (wats_shape cwd _ Hv Hin) as (stem & Heq & _ & Hh).
    injection Heq as Heq. congruence.
  - intros sh out tr outcome c Hmain Hc. unfold main in Hmain.
    destruct (run_prefix sh out (wats cwd) tr outcome Hmain)
      as (done & rest & passes & Hws & Hdone & Hex & Hcases).
    rewrite Hws.
    assert (Hold : In c (executed tr) ->
                   exists w, In w (done ++ rest)%list /\ cmd_of w = Ok c).
    { rewrite Hex. intros Hin.
      destruct (builds_origin _ passes c Hdone Hin) as (w & Hw & Hcw).
      exists w. split; [apply in_or_app; now left|exact Hcw]. }
    destruct Hcases as [(_ & _ & Hp)|[(e & _ & _ & Hp)|Hlast]].
    + rewrite Hp in Hc. apply Hold. tauto.
    + rewrite Hp in Hc. apply Hold. tauto.
    + destruct Hlast as (e & w & rest' & c' & _ & -> & Hc' & Hp).
      rewrite Hp in Hc.
      destruct Hc as [Hc|Hc]; [|now apply Hold].
      apply in_app_or in Hc as [Hc|[<-|[]]]; [now apply Hold|].
      exists w. split; [apply in_or_app; right; now left|exact Hc'].
Qed.

Lemma enumeration_flat_and_visible_witness :
  (forall sub x, ~ In ("wat/" ++ sub ++ "/" ++ x) (wats sample_cwd))
  /\ (forall n, Glob.ishidden n = true -> ~ In ("wat/" ++ n) (wats sample_cwd))
  /\ (forall sh out tr outcome c,
         main sh out sample_cwd [] = (tr, outcome) ->
         In c (printed tr) \/ In c (executed tr) ->
         exists w, In w (wats sample_cwd) /\ cmd_of w = Ok c).
Proof.
  apply (enumeration_flat_and_visible sample_cwd). reflexivity.
Defined.

(** ** Output paths *)

(** C10. The output path of every selected path begins with [wasm/],
    ends with [.wasm], and has no separator after [wasm/]. *)
Theorem output_path_invariant (cwd : directory) (w : string) :
  In w (wats cwd) ->
  exists out,
    out_path w = Ok out
    /\ Str.starts_with "wasm/" out = true
    /\ Str.ends_with ".wasm" out = true
    /\ Str.contains "/" (Str.drop 5 out) = false.
Proof.
  intros Hin. apply wats_end in Hin. apply ends_with_iff in Hin as [x ->].
  destruct (split_last_piece "/" sep_nonempty sep_unbordered x)
    as (piece & Hp & Hc).
  assert (Hbase : Str.item_last (Str.split_from "/" 0 (x ++ ".wat"))
                  = Ok (piece ++ ".wat")).
  { rewrite (last_piece_append x ".wat" eq_refl), Hp. reflexivity. }
  destruct (replace_keeps_end ".wat" ext_nonempty ext_unbordered ".wasm" piece)
    as [y Hy].
  exists ("wasm/" ++ y ++ ".wasm").
  assert (Hname : out_name (x ++ ".wat") = Ok (y ++ ".wasm")).
  { unfold out_name. cbn [Str.split result_bind]. rewrite Hbase.
    cbn [result_bind]. unfold Str.replace. now rewrite Hy. }
  split; [|split; [|split]].
  - unfold out_path. now rewrite Hname.
  - reflexivity.
  - apply ends_with_iff. exists ("wasm/" ++ y). now rewrite !append_assoc.
  - cbn [Str.drop append]. rewrite <- Hy. apply replace_no_sep; [reflexivity|].
    rewrite contains_char_append, Hc. reflexivity.
Qed.

Lemma output_path_invariant_witness :
  exists out,
    out_path "wat/b.wat" = Ok out
    /\ Str.starts_with "wasm/" out = true
    /\ Str.ends_with ".wasm" out = true
    /\ Str.contains "/" (Str.drop 5 out) = false.
Proof.
  apply (output_path_invariant sample_cwd "wat/b.wat").
  vm_compute. right. left. reflexivity.
Defined.

(** ** The run *)

Lemma failing_shell_launches : launches failing_shell.
Proof. intros tr cmd. exists 256%Z, false. reflexivity. Defined.

Lemma succeeding_shell_launches : launches succeeding_shell.
Proof. intros tr cmd. exists 0%Z, false. reflexivity. Defined.

Lemma plain_console_accepts : accepts plain_console.
Proof. intros tr line. reflexivity. Defined.





(** C5, as the code has it.  When the console takes every line and the
    launch mechanism never fails, the run ends normally, and its trace
    is, for every selected input in listing order, the command printed
    and the command run, whatever statuses the commands exit with: a
    second run with other statuses prints and runs the same commands. *)
Theorem independence
    (sh sh' : shell) (out out' : console) (cwd : directory) :
  launches sh ->
  launches sh' ->
  accepts out ->
  accepts out' ->
  exists passes passes',
    main sh out cwd [] = (rounds passes, Ok tt)
    /\ main sh' out' cwd [] = (rounds passes', Ok tt)
    /\ Forall2 builds (wats cwd) passes
    /\ Forall2 builds (wats cwd) passes'
    /\ printed (rounds passes') = printed (rounds passes)
    /\ executed (rounds passes') = executed (rounds passes).
Proof.
  intros Hsh Hsh' Hout Hout'.
  destruct (for_each_completes sh out (wats cwd) [] Hsh Hout)
    as (passes & Hrun & Hall).
  destruct (for_each_completes sh' out' (wats cwd) [] Hsh' Hout')
    as (passes' & Hrun' & Hall').
  exists passes, passes'.
  rewrite !printed_rounds, !executed_rounds.
  rewrite (builds_commands _ _ Hall), (builds_commands _ _ Hall').
  repeat split; assumption.
Qed.

Lemma independence_witness :
  exists passes passes',
    main failing_shell plain_console sample_cwd [] = (rounds passes, Ok tt)
    /\ main succeeding_shell plain_console sample_cwd [] = (rounds passes', Ok tt)
    /\ Forall2 builds (wats sample_cwd) passes
    /\ Forall2 builds (wats sample_cwd) passes'
    /\ printed (rounds passes') = printed (rounds passes)
    /\ executed (rounds passes') = executed (rounds passes).
Proof.
  apply (independence failing_shell succeeding_shell
                      plain_console plain_console sample_cwd).
  - exact failing_shell_launches.
  - exact succeeding_shell_launches.
  - exact plain_console_accepts.
  - exact plain_console_accepts.
Defined.

(** C5 as the spec words it fails: with a shell that always launches, an
    exception of [print] aborts the batch.  A strict console refuses the
    command of the file whose name holds byte 255; the input listed
    before it has had its pass, the input listed after it is never
    reached. *)
Lemma print_failure_aborts_batch :
  launches failing_shell
  /\ wats undecodable_cwd
     = ["wat/a.wat"; "wat/" ++ String "255" ".wat"; "wat/b.wat"]
  /\ main failing_shell strict_console undecodable_cwd []
     = ([Print "./wat2wasm wat/a.wat -o wasm/a.wasm";
         System "./wat2wasm wat/a.wat -o wasm/a.wasm" 256 false],
        Raise UnicodeEncodeError)
  /\ ~ (forall sh out cwd,
          launches sh -> exists tr, main sh out cwd [] = (tr, Ok tt)).
Proof.
  split; [exact failing_shell_launches|].
  split; [reflexivity|]. split; [reflexivity|].
  intros H.
  destruct (H failing_shell strict_console undecodable_cwd
              failing_shell_launches) as [tr Htr].
  discriminate Htr.
Qed.

(** C6. When the input directory cannot be listed (it does not exist, or
    [wat] is not a directory) or lists no name ending in [.wat], nothing
    is selected, and the run ends normally with the trace untouched: no
    command printed, the shell never called. *)
Theorem noop_on_empty_input (cwd : directory) :
  (scandir cwd "wat" = Raise OSError
   \/ exists names,
        scandir cwd "wat" = Ok names
        /\ forall n, In n names -> Str.ends_with ".wat" n = false) ->
  wats cwd = []
  /\ forall sh out tr, main sh out cwd tr = (tr, Ok tt).
Proof.
  intros H.
  assert (Hw : wats cwd = []).
  { rewrite wats_listing. unfold Glob.listdir.
    destruct H as [->|(names & -> & Hnone)]; [reflexivity|].
    induction names as [|n names IH]; [reflexivity|].
    cbn [filter]. unfold selected at 1.
    rewrite (Hnone n (or_introl eq_refl)), andb_false_r.
    apply IH. intros m Hm. apply Hnone. now right. }
  split; [exact Hw|].
  intros sh out tr. unfold main. rewrite Hw. reflexivity.
Qed.

Lemma noop_on_empty_input_witness :
  (wats [] = [] /\ forall sh out tr, main sh out [] tr = (tr, Ok tt))
  /\ (wats [("wat", Dir [("c.txt", File "notes")])] = []
      /\ forall sh out tr,
           main sh out [("wat", Dir [("c.txt", File "notes")])] tr = (tr, Ok tt)).
Proof.
  split.
  - apply (noop_on_empty_input []). left. reflexivity.
  - apply (noop_on_empty_input [("wat", Dir [("c.txt", File "notes")])]).
    right. exists ["c.txt"]. split; [reflexivity|].
    intros n [<-|[]]. reflexivity.
Defined.

(** C7, as the code has it.  Two runs over the same entries of the input
    directory, listed in whatever order each time and whatever else
    changed in between, that both end normally have both done the full
    work, and have printed the same commands, executed the same commands
    and derived the same output paths. *)
Theorem idempotence
    (sh1 sh2 : shell) (out1 out2 : console) (cwd1 cwd2 : directory)
    (tr1 tr2 : trace) :
  Permutation (Glob.listdir cwd1 "wat") (Glob.listdir cwd2 "wat") ->
  main sh1 out1 cwd1 [] = (tr1, Ok tt) ->
  main sh2 out2 cwd2 [] = (tr2, Ok tt) ->
  Permutation (printed tr1) (printed tr2)
  /\ Permutation (executed tr1) (executed tr2)
  /\ Permutation (map out_path (wats cwd1)) (map out_path (wats cwd2))
  /\ List.length (executed tr1) = List.length (wats cwd1)
  /\ List.length (executed tr2) = List.length (wats cwd2).
Proof.
  intros Hperm Hrun1 Hrun2.
  assert (Hw : Permutation (wats cwd1) (wats cwd2)).
  { rewrite !wats_listing.
    apply Permutation_map, Permutation_filter, Hperm. }
  destruct (completed_run sh1 out1 (wats cwd1) [] tr1 Hrun1)
    as (passes1 & -> & Hall1).
  destruct (completed_run sh2 out2 (wats cwd2) [] tr2 Hrun2)
    as (passes2 & -> & Hall2).
  cbn [app].
  rewrite !printed_rounds, !executed_rounds.
  rewrite (builds_commands _ _ Hall1), (builds_commands _ _ Hall2).
  rewrite !length_map.
  repeat split; try reflexivity; now apply Permutation_map.
Qed.

Lemma idempotence_witness :
  Permutation
    (printed [Print "./wat2wasm wat/a.wat -o wasm/a.wasm";
              System "./wat2wasm wat/a.wat -o wasm/a.wasm" 0 false;
              Print "./wat2wasm wat/b.wat -o wasm/b.wasm";
              System "./wat2wasm wat/b.wat -o wasm/b.wasm" 0 false])
    (printed [Print "./wat2wasm wat/b.wat -o wasm/b.wasm";
              System "./wat2wasm wat/b.wat -o wasm/b.wasm" 256 false;
              Print "./wat2wasm wat/a.wat -o wasm/a.wasm";
              System "./wat2wasm wat/a.wat -o wasm/a.wasm" 256 false])
  /\ Permutation
       (executed [Print "./wat2wasm wat/a.wat -o wasm/a.wasm";
                  System "./wat2wasm wat/a.wat -o wasm/a.wasm" 0 false;
                  Print "./wat2wasm wat/b.wat -o wasm/b.wasm";
                  System "./wat2wasm wat/b.wat -o wasm/b.wasm" 0 false])
       (executed [Print "./wat2wasm wat/b.wat -o wasm/b.wasm";
                  System "./wat2wasm wat/b.wat -o wasm/b.wasm" 256 false;
                  Print "./wat2wasm wat/a.wat -o wasm/a.wasm";
                  System "./wat2wasm wat/a.wat -o wasm/a.wasm" 256 false])
  /\ Permutation (map out_path (wats sample_cwd))
                 (map out_path (wats sample_cwd_after))
  /\ List.length
       (executed [Print "./wat2wasm wat/a.wat -o wasm/a.wasm";
                  System "./wat2wasm wat/a.wat -o wasm/a.wasm" 0 false;
                  Print "./wat2wasm wat/b.wat -o wasm/b.wasm";
                  System "./wat2wasm wat/b.wat -o wasm/b.wasm" 0 false])
     = List.length (wats sample_cwd)
  /\ List.length
       (executed [Print "./wat2wasm wat/b.wat -o wasm/b.wasm";
                  System "./wat2wasm wat/b.wat -o wasm/b.wasm" 256 false;
                  Print "./wat2wasm wat/a.wat -o wasm/a.wasm";
                  System "./wat2wasm wat/a.wat -o wasm/a.wasm" 256 false])
     = List.length (wats sample_cwd_after).
Proof.
  apply (idempotence succeeding_shell failing_shell plain_console plain_console
                     sample_cwd sample_cwd_after).
  - cbn.
    apply perm_trans with
      (["b.wat"; "a.wat"; "c.txt"; ".hidden.wat"; "sub"]).
    + apply (Permutation_app_comm ["a.wat"; "c.txt"; ".hidden.wat"; "sub"] ["b.wat"]).
    + apply perm_skip.
      apply perm_trans with (["sub"; "a.wat"; "c.txt"; ".hidden.wat"]).
      * apply (Permutation_app_comm ["a.wat"; "c.txt"; ".hidden.wat"] ["sub"]).
      * apply perm_skip, perm_skip, perm_swap.
  - reflexivity.
  - reflexivity.
Defined.

(** C7 as the spec words it fails: the same three entries, listed in two
    orders, under the same strict console and the same shell.  The run
    that meets the file whose name holds byte 255 first executes nothing;
    the run that meets it second has executed one command. *)
Lemma aborted_runs_differ :
  Permutation (Glob.listdir undecodable_cwd "wat")
              (Glob.listdir undecodable_cwd_reordered "wat")
  /\ main succeeding_shell strict_console undecodable_cwd []
     = ([Print "./wat2wasm wat/a.wat -o wasm/a.wasm";
         System "./wat2wasm wat/a.wat -o wasm/a.wasm" 0 false],
        Raise UnicodeEncodeError)
  /\ main succeeding_shell strict_console undecodable_cwd_reordered []
     = ([], Raise UnicodeEncodeError)
  /\ ~ (forall sh out cwd1 cwd2,
          Permutation (Glob.listdir cwd1 "wat") (Glob.listdir cwd2 "wat") ->
          Permutation (printed (fst (main sh out cwd1 [])))
                      (printed (fst (main sh out cwd2 [])))
          /\ Permutation (executed (fst (main sh out cwd1 [])))
                         (executed (fst (main sh out cwd2 [])))).
Proof.
  assert (Hperm : Permutation (Glob.listdir undecodable_cwd "wat")
                              (Glob.listdir undecodable_cwd_reordered "wat"))
    by apply perm_swap.
  split; [exact Hperm|]. split; [reflexivity|]. split; [reflexivity|].
  intros H.
  destruct (H succeeding_shell strict_console
              undecodable_cwd undecodable_cwd_reordered Hperm) as [_ He].
  apply Permutation_length in He. discriminate He.
Qed.

(** * Further properties of the script *)

(** ** More facts about strings and scanning *)

Lemma append_cancel_l (a b c : string) : a ++ b = a ++ c -> b = c.
Proof.
  induction a as [|x a IH]; simpl; [trivial|].
  intros H. injection H as H. now apply IH.
Qed.

Lemma append_cancel_r (a b c : string) : a ++ c = b ++ c -> a = b.
Proof.
  revert b. induction a as [|x a IH]; intros [|y b] H.
  - reflexivity.
  - apply (f_equal String.length) in H.
    rewrite !length_append in H. simpl in H. lia.
  - apply (f_equal String.length) in H.
    rewrite !length_append in H. simpl in H. lia.
  - simpl in H. injection H as -> H. f_equal. now apply IH.
Qed.

Lemma join_cons (sep x : string) (l : list string) :
  l <> [] -> Str.join sep (x :: l) = x ++ sep ++ Str.join sep l.
Proof.
  destruct l; [congruence|reflexivity].
Qed.

Lemma NoDup_map_injective {A B : Type} (f : A -> B) (l : list A) :
  (forall x y, f x = f y -> x = y) ->
  NoDup l -> NoDup (map f l).
Proof.
  intros Hinj. induction 1 as [|x l Hx _ IH]; cbn [map]; constructor.
  - intros Hin. apply in_map_iff in Hin as (y & Hy & Hin).
    apply Hinj in Hy. now subst.
  - exact IH.
Qed.

Section Compose.

Variable word : string.

Hypothesis word_nonempty : word <> "".

Hypothesis word_unbordered :
  forall a b, a <> "" ->
    Str.starts_with word (a ++ word ++ b) = true ->
    Str.starts_with word a = true.

Variable new : string.

Lemma shorter_after_word (a b : string) :
  String.length b < String.length (a ++ word ++ b).
Proof.
  rewrite !length_append. destruct word; [congruence|simpl; lia].
Qed.

(** The rewriting distributes over any occurrence of the word, not only
    the leftmost one. *)
Lemma replace_at_occurrence (x b : string) :
  Str.replace_from word new 0 (x ++ word ++ b)
  = Str.replace_from word new 0 x ++ new ++ Str.replace_from word new 0 b.
Proof.
  induction x as [x IH] using string_size_ind.
  destruct (Str.contains word x) eqn:E.
  - destruct (leftmost_occurrence word word_nonempty word_unbordered x E)
      as (a & x' & -> & Ha).
    rewrite !append_assoc.
    rewrite (replace_leftmost word word_nonempty word_unbordered new a _ Ha).
    rewrite (replace_leftmost word word_nonempty word_unbordered new a x' Ha).
    rewrite (IH x' (shorter_after_word a x')).
    now rewrite !append_assoc.
  - rewrite (replace_leftmost word word_nonempty word_unbordered new x b E).
    now rewrite (replace_absent word new x E).
Qed.

(** Splitting at the word and joining with it gives the string back. *)
Lemma join_split (s : string) :
  Str.join word (Str.split_from word 0 s) = s.
Proof.
  induction s as [s IH] using string_size_ind.
  destruct (Str.contains word s) eqn:E.
  - destruct (leftmost_occurrence word word_nonempty word_unbordered s E)
      as (a & b & -> & Ha).
    rewrite (split_leftmost word word_nonempty word_unbordered a b Ha).
    rewrite join_cons by apply split_from_nonempty.
    now rewrite (IH b (shorter_after_word a b)).
  - now rewrite (split_absent word s E).
Qed.

(** The pieces on both sides of an occurrence are the pieces of the
    whole. *)
Lemma split_at_occurrence (x y : string) :
  Str.split_from word 0 (x ++ word ++ y)
  = (removelast (Str.split_from word 0 x)
     ++ match Str.item_last (Str.split_from word 0 x) with
        | Ok piece => [piece]
        | Raise _ => []
        end
     ++ Str.split_from word 0 y)%list.
Proof.
  induction x as [x IH] using string_size_ind.
  destruct (Str.contains word x) eqn:E.
  - destruct (leftmost_occurrence word word_nonempty word_unbordered x E)
      as (a & x' & -> & Ha).
    rewrite !append_assoc.
    rewrite (split_leftmost word word_nonempty word_unbordered a _ Ha).
    rewrite (split_leftmost word word_nonempty word_unbordered a x' Ha).
    rewrite (IH x' (shorter_after_word a x')).
    rewrite item_last_cons by apply split_from_nonempty.
    pose proof (split_from_nonempty word 0 x') as Hne.
    destruct (Str.split_from word 0 x') as [|p ps]; [congruence|reflexivity].
  - rewrite (split_leftmost word word_nonempty word_unbordered x y E).
    now rewrite (split_absent word x E).
Qed.

(** The last piece is an end of the string. *)
Lemma split_last_suffix (s : string) :
  exists x piece,
    Str.item_last (Str.split_from word 0 s) = Ok piece /\ s = x ++ piece.
Proof.
  induction s as [s IH] using string_size_ind.
  destruct (Str.contains word s) eqn:E.
  - destruct (leftmost_occurrence word word_nonempty word_unbordered s E)
      as (a & b & -> & Ha).
    destruct (IH b (shorter_after_word a b)) as (x & piece & Hp & Hb).
    exists (a ++ word ++ x), piece. split.
    + rewrite (split_leftmost word word_nonempty word_unbordered a b Ha).
      now rewrite item_last_cons by apply split_from_nonempty.
    + rewrite Hb at 1. now rewrite !append_assoc.
  - exists "", s. now rewrite (split_absent word s E).
Qed.

End Compose.

(** ** The extension and its replacement *)

Lemma contains_cons (sub : string) (c : ascii) (s : string) :
  Str.contains sub (String c s)
  = Str.starts_with sub (String c s) || Str.contains sub s.
Proof. reflexivity. Qed.

Lemma ext_not_into_new (a r : string) :
  a <> "" ->
  Str.starts_with ".wat" (a ++ ".wasm" ++ r) = true ->
  Str.starts_with ".wat" a = true.
Proof.
  destruct a as [|c1 [|c2 [|c3 [|c4 a]]]]; [congruence|intros _; simpl ..];
    rewrite ?andb_false_r; try discriminate; trivial.
Qed.

(** No occurrence of [.wat] arises where [.wasm] was put between two
    texts that have none. *)
Lemma no_ext_across (a r : string) :
  Str.contains ".wat" a = false ->
  Str.contains ".wat" r = false ->
  Str.contains ".wat" (a ++ ".wasm" ++ r) = false.
Proof.
  intros Ha Hr. induction a as [|c a IH].
  - simpl. exact Hr.
  - change (String c a ++ ".wasm" ++ r) with (String c (a ++ ".wasm" ++ r)).
    rewrite contains_cons, (IH (contains_tail _ _ _ Ha)), orb_false_r.
    destruct (Str.starts_with ".wat" (String c (a ++ ".wasm" ++ r))) eqn:E;
      [|reflexivity].
    apply (ext_not_into_new (String c a) r) in E; [|discriminate].
    apply contains_head in Ha. congruence.
Qed.

Lemma replace_output_clean (s : string) :
  Str.contains ".wat" (Str.replace_from ".wat" ".wasm" 0 s) = false.
Proof.
  induction s as [s IH] using string_size_ind.
  destruct (Str.contains ".wat" s) eqn:E.
  - destruct (leftmost_occurrence ".wat" ext_nonempty ext_unbordered s E)
      as (a & b & -> & Ha).
    rewrite (replace_leftmost ".wat" ext_nonempty ext_unbordered ".wasm" a b Ha).
    apply no_ext_across; [exact Ha|].
    apply IH. exact (shorter_after_word ".wat" ext_nonempty ext_unbordered a b).
  - now rewrite (replace_absent ".wat" ".wasm" s E).
Qed.

Lemma replace_append_new (s : string) :
  Str.replace_from ".wat" ".wasm" 0 (s ++ ".wasm")
  = Str.replace_from ".wat" ".wasm" 0 s ++ ".wasm".
Proof.
  induction s as [s IH] using string_size_ind.
  destruct (Str.contains ".wat" s) eqn:E.
  - destruct (leftmost_occurrence ".wat" ext_nonempty ext_unbordered s E)
      as (a & b & -> & Ha).
    rewrite !append_assoc.
    rewrite !(replace_leftmost ".wat" ext_nonempty ext_unbordered ".wasm" a _ Ha).
    rewrite (IH b (shorter_after_word ".wat" ext_nonempty ext_unbordered a b)).
    now rewrite !append_assoc.
  - rewrite (replace_absent ".wat" ".wasm" s E).
    apply replace_absent.
    change (s ++ ".wasm") with (s ++ ".wasm" ++ "").
    now apply no_ext_across.
Qed.

(** ** Single characters *)

Lemma char_nonempty (c : ascii) : String c "" <> "".
Proof. discriminate. Qed.

Lemma char_unbordered (c : ascii) (a b : string) :
  a <> "" ->
  Str.starts_with (String c "") (a ++ String c "" ++ b) = true ->
  Str.starts_with (String c "") a = true.
Proof.
  destruct a as [|d a]; [congruence|].
  intros _. simpl. now rewrite !andb_true_r.
Qed.

Lemma contains_char_cons (c d : ascii) (s : string) :
  Str.contains (String c "") (String d s)
  = Ascii.eqb c d || Str.contains (String c "") s.
Proof.
  simpl. now rewrite andb_true_r.
Qed.

(** A replacement without a given character introduces none. *)
Lemma replace_no_char (c : ascii) (old new : string) (k : nat) (s : string) :
  Str.contains (String c "") new = false ->
  Str.contains (String c "") s = false ->
  Str.contains (String c "") (Str.replace_from old new k s) = false.
Proof.
  intros Hnew. revert k.
  induction s as [|d s IH]; intros k Hs; [reflexivity|].
  rewrite contains_char_cons in Hs. apply orb_false_iff in Hs as [Hd Hs].
  cbn [Str.replace_from]. destruct k; [|now apply IH].
  destruct (Str.starts_with old (String d s)).
  - rewrite contains_char_append, Hnew. now apply IH.
  - rewrite contains_char_cons, Hd. now apply IH.
Qed.

(** ** Commands and inputs *)

Lemma flag_then_name (x n : string) :
  (x ++ " -o wasm/") ++ n = (x ++ " -o wasm") ++ "/" ++ n.
Proof.
  now rewrite !append_assoc.
Qed.

Lemma cmd_of_inj (w1 w2 c : string) :
  cmd_of w1 = Ok c -> cmd_of w2 = Ok c -> w1 = w2.
Proof.
  destruct (out_name_total w1) as (n1 & Hn1 & Hs1).
  destruct (out_name_total w2) as (n2 & Hn2 & Hs2).
  unfold cmd_of. rewrite Hn1, Hn2. cbn [result_bind].
  remember "./wat2wasm " as tool eqn:Etool.
  intros H1 H2. rewrite <- H2 in H1. injection H1 as H.
  rewrite !flag_then_name in H.
  assert (Hn : n1 = n2).
  { pose proof (split_last_after "/" sep_nonempty sep_unbordered
                  ((tool ++ w1) ++ " -o wasm") n1 Hs1) as L1.
    pose proof (split_last_after "/" sep_nonempty sep_unbordered
                  ((tool ++ w2) ++ " -o wasm") n2 Hs2) as L2.
    rewrite H in L1. congruence. }
  subst n2.
  apply append_cancel_r, append_cancel_r, append_cancel_l in H.
  exact H.
Qed.

Lemma join_wat_cases (n : string) :
  Path.join "wat" n = if Str.starts_with "/" n then n else "wat/" ++ n.
Proof. reflexivity. Qed.

Lemma join_wat_inj (n1 n2 : string) :
  Path.join "wat" n1 = Path.join "wat" n2 -> n1 = n2.
Proof.
  rewrite !join_wat_cases.
  destruct (Str.starts_with "/" n1) eqn:E1, (Str.starts_with "/" n2) eqn:E2;
    intros H.
  - exact H.
  - subst n1. discriminate E1.
  - subst n2. discriminate E2.
  - now apply append_cancel_l in H.
Qed.


Lemma split_pieces_clean (s : string) :
  Forall (fun piece => Str.contains "/" piece = false) (Str.split_from "/" 0 s).
Proof.
  induction s as [s IH] using string_size_ind.
  destruct (Str.contains "/" s) eqn:E.
  - destruct (leftmost_occurrence "/" sep_nonempty sep_unbordered s E)
      as (a & b & -> & Ha).
    rewrite (split_leftmost "/" sep_nonempty sep_unbordered a b Ha).
    constructor; [exact Ha|].
    apply IH. exact (shorter_after_word "/" sep_nonempty sep_unbordered a b).
  - rewrite (split_absent "/" s E). now constructor.
Qed.

(** ** Which entries are selected *)



(** When the listing names no entry twice, no input is selected twice and
    no command is printed or executed twice, however the run ends. *)
Theorem each_input_once
    (sh : shell) (out : console) (cwd : directory)
    (tr : trace) (outcome : result unit) :
  NoDup (Glob.listdir cwd "wat") ->
  main sh out cwd [] = (tr, outcome) ->
  NoDup (wats cwd)
  /\ NoDup (printed tr)
  /\ NoDup (executed tr).
Proof.
  intros Hnd Hmain.
  assert (Hw : NoDup (wats cwd)).
  { rewrite wats_listing.
    apply NoDup_map_injective; [exact join_wat_inj|now apply NoDup_filter]. }
  set (g := fun w => match cmd_of w with Ok c => c | Raise _ => "" end).
  assert (Hc : NoDup (map g (wats cwd))).
  { apply NoDup_map_injective; [|exact Hw].
    intros w1 w2. unfold g.
    destruct (cmd_of_total w1) as [c1 H1], (cmd_of_total w2) as [c2 H2].
    rewrite H1, H2. intros <-. exact (cmd_of_inj w1 w2 c1 H1 H2). }
  unfold main in Hmain.
  destruct (run_prefix sh out (wats cwd) tr outcome Hmain)
    as (done & rest & passes & Hws & Hdone & Hex & Hcases).
  rewrite Hws in Hc.
  assert (Hexec : NoDup (executed tr)).
  { rewrite Hex, (builds_commands _ _ Hdone). fold g.
    rewrite map_app in Hc. exact (NoDup_app_remove_r _ _ Hc). }
  split; [exact Hw|]. split; [|exact Hexec].
  destruct Hcases as [(_ & _ & ->)|[(e & _ & _ & ->)|Hlast]];
    [exact Hexec|exact Hexec|].
  destruct Hlast as (e & w & rest' & c & _ & -> & Hcw & ->).
  rewrite Hex, (builds_commands _ _ Hdone). fold g.
  assert (Hg : c = g w) by (unfold g; now rewrite Hcw).
  rewrite Hg.
  change (map g done ++ [g w])%list with (map g done ++ map g [w])%list.
  rewrite <- map_app.
  change (done ++ w :: rest')%list with (done ++ [w] ++ rest')%list in Hc.
  rewrite app_assoc, map_app in Hc.
  exact (NoDup_app_remove_r _ _ Hc).
Qed.

Lemma each_input_once_witness :
  NoDup (wats undecodable_cwd)
  /\ NoDup (printed [Print "./wat2wasm wat/a.wat -o wasm/a.wasm";
                     System "./wat2wasm wat/a.wat -o wasm/a.wasm" 256 false])
  /\ NoDup (executed [Print "./wat2wasm wat/a.wat -o wasm/a.wasm";
                      System "./wat2wasm wat/a.wat -o wasm/a.wasm" 256 false]).
Proof.
  apply (each_input_once failing_shell strict_console undecodable_cwd
                         _ (Raise UnicodeEncodeError)).
  - cbn. repeat (constructor; [cbn; intuition discriminate|]). constructor.
  - reflexivity.
Defined.

(** ** Commands and output paths *)

(** Two different input paths never give the same command line. *)
Theorem distinct_inputs_distinct_commands (w1 w2 : string) :
  w1 <> w2 -> cmd_of w1 <> cmd_of w2.
Proof.
  intros Hneq Heq. apply Hneq.
  destruct (cmd_of_total w1) as [c H1].
  apply (cmd_of_inj w1 w2 c H1). now rewrite <- Heq.
Qed.

Lemma distinct_inputs_distinct_commands_witness :
  cmd_of "wat/a.wat" <> cmd_of "wat/a.wat.wat".
Proof.
  apply (distinct_inputs_distinct_commands "wat/a.wat" "wat/a.wat.wat").
  discriminate.
Defined.

(** The derived output name never contains [.wat], so deriving again from
    it changes nothing. *)
Theorem output_name_has_no_input_extension (w : string) :
  exists name,
    out_name w = Ok name
    /\ Str.contains ".wat" name = false
    /\ Str.replace ".wat" ".wasm" name = name.
Proof.
  destruct (split_last_piece "/" sep_nonempty sep_unbordered w)
    as (piece & Hp & _).
  exists (Str.replace ".wat" ".wasm" piece).
  assert (Hclean : Str.contains ".wat" (Str.replace ".wat" ".wasm" piece) = false)
    by apply replace_output_clean.
  split; [|split].
  - unfold out_name. cbn [Str.split result_bind]. now rewrite Hp.
  - exact Hclean.
  - exact (replace_absent ".wat" ".wasm" _ Hclean).
Qed.

(** The substitution distributes over every occurrence of [.wat], and a
    [.wasm] already at the end is carried along unchanged. *)
Theorem substitution_distributes (x b : string) :
  Str.replace ".wat" ".wasm" (x ++ ".wat" ++ b)
  = Str.replace ".wat" ".wasm" x ++ ".wasm" ++ Str.replace ".wat" ".wasm" b
  /\ Str.replace ".wat" ".wasm" (x ++ ".wasm")
     = Str.replace ".wat" ".wasm" x ++ ".wasm".
Proof.
  split.
  - exact (replace_at_occurrence ".wat" ext_nonempty ext_unbordered ".wasm" x b).
  - exact (replace_append_new x).
Qed.

(** Output paths can collide: for every stem without separator, the
    inputs [wat/<stem>.wat.wat] and [wat/<stem>.wasm.wat] differ and
    derive the same output path. *)
Theorem output_collision (stem : string) :
  Str.contains "/" stem = false ->
  "wat/" ++ stem ++ ".wat.wat" <> "wat/" ++ stem ++ ".wasm.wat"
  /\ exists out,
       out_path ("wat/" ++ stem ++ ".wat.wat") = Ok out
       /\ out_path ("wat/" ++ stem ++ ".wasm.wat") = Ok out.
Proof.
  intros Hs. split.
  - intros H. apply append_cancel_l, append_cancel_l in H. discriminate H.
  - exists ("wasm/" ++ Str.replace ".wat" ".wasm" stem ++ ".wasm.wasm").
    unfold out_path.
    change ("wat/" ++ stem ++ ".wat.wat")
      with ("wat" ++ "/" ++ (stem ++ ".wat.wat")).
    change ("wat/" ++ stem ++ ".wasm.wat")
      with ("wat" ++ "/" ++ (stem ++ ".wasm.wat")).
    rewrite !out_name_base
      by (rewrite contains_char_append, Hs; reflexivity).
    cbn [result_bind]. unfold Str.replace. split; do 2 f_equal.
    + change (stem ++ ".wat.wat") with (stem ++ ".wat" ++ ".wat").
      now rewrite (replace_at_occurrence ".wat" ext_nonempty ext_unbordered).
    + change (stem ++ ".wasm.wat") with (stem ++ ".wasm" ++ ".wat" ++ "").
      rewrite <- append_assoc.
      rewrite (replace_at_occurrence ".wat" ext_nonempty ext_unbordered).
      rewrite replace_append_new. now rewrite !append_assoc.
Qed.

Lemma output_collision_witness :
  "wat/" ++ "a" ++ ".wat.wat" <> "wat/" ++ "a" ++ ".wasm.wat"
  /\ exists out,
       out_path ("wat/" ++ "a" ++ ".wat.wat") = Ok out
       /\ out_path ("wat/" ++ "a" ++ ".wasm.wat") = Ok out.
Proof.
  apply (output_collision "a"). reflexivity.
Defined.

(** Output paths do not collide for names that hold [.wat] only as their
    extension: two such inputs with different stems derive different
    output paths. *)
Theorem plain_stems_distinct_outputs (s1 s2 : string) :
  Str.contains "/" s1 = false ->
  Str.contains "/" s2 = false ->
  Str.contains ".wat" s1 = false ->
  Str.contains ".wat" s2 = false ->
  s1 <> s2 ->
  out_path ("wat/" ++ s1 ++ ".wat") <> out_path ("wat/" ++ s2 ++ ".wat").
Proof.
  intros Hs1 Hs2 He1 He2 Hneq Heq. apply Hneq.
  unfold out_path in Heq.
  change ("wat/" ++ s1 ++ ".wat") with ("wat" ++ "/" ++ (s1 ++ ".wat" ++ "")) in Heq.
  change ("wat/" ++ s2 ++ ".wat") with ("wat" ++ "/" ++ (s2 ++ ".wat" ++ "")) in Heq.
  rewrite !out_name_base in Heq
    by (rewrite contains_char_append, ?Hs1, ?Hs2; reflexivity).
  cbn [result_bind] in Heq. unfold Str.replace in Heq.
  rewrite (replace_leftmost ".wat" ext_nonempty ext_unbordered ".wasm" s1 "" He1) in Heq.
  rewrite (replace_leftmost ".wat" ext_nonempty ext_unbordered ".wasm" s2 "" He2) in Heq.
  injection Heq as Heq.
  now apply append_cancel_r in Heq.
Qed.

Lemma plain_stems_distinct_outputs_witness :
  out_path ("wat/" ++ "a" ++ ".wat") <> out_path ("wat/" ++ "b" ++ ".wat").
Proof.
  apply (plain_stems_distinct_outputs "a" "b"); try reflexivity.
  discriminate.
Defined.

(** ** Failures *)

(** The script's own string handling never raises: a run can end with an
    exception only where [print] fails on the command of a selected
    input, which is then not run, or where [os.system] fails on the
    command printed last. *)
Theorem only_console_or_shell_raise
    (sh : shell) (out : console) (cwd : directory) (tr tr' : trace) (e : exn) :
  main sh out cwd tr = (tr', Raise e) ->
  exists w c,
    In w (wats cwd)
    /\ cmd_of w = Ok c
    /\ (out tr' c = Raise e
        \/ exists earlier,
             tr' = (earlier ++ [Print c])%list /\ sh tr' c = Raise e).
Proof.
  intros Hmain. unfold main in Hmain.
  destruct (for_each_trace sh out (wats cwd) tr) as (passes & _ & [[Hrun _]|Hfail]).
  - rewrite Hrun in Hmain. discriminate Hmain.
  - destruct Hfail as (done & w & rest & c & e' & Hws & _ & Hc & Hend).
    exists w, c. split; [rewrite Hws; apply in_or_app; right; now left|].
    split; [exact Hc|].
    destruct Hend as [[Hout Hrun]|[Hsh Hrun]];
      rewrite Hrun in Hmain; injection Hmain as <- <-.
    + left. exact Hout.
    + right. exists (tr ++ rounds passes)%list.
      split; [now rewrite app_assoc|exact Hsh].
Qed.

Lemma only_console_or_shell_raise_witness :
  exists w c,
    In w (wats undecodable_cwd)
    /\ cmd_of w = Ok c
    /\ (strict_console
          [Print "./wat2wasm wat/a.wat -o wasm/a.wasm";
           System "./wat2wasm wat/a.wat -o wasm/a.wasm" 256 false] c
        = Raise UnicodeEncodeError
        \/ exists earlier,
             [Print "./wat2wasm wat/a.wat -o wasm/a.wasm";
              System "./wat2wasm wat/a.wat -o wasm/a.wasm" 256 false]
             = (earlier ++ [Print c])%list
             /\ failing_shell
                  [Print "./wat2wasm wat/a.wat -o wasm/a.wasm";
                   System "./wat2wasm wat/a.wat -o wasm/a.wasm" 256 false] c
                = Raise UnicodeEncodeError).
Proof.
  apply (only_console_or_shell_raise failing_shell strict_console
                                     undecodable_cwd []).
  reflexivity.
Defined.



(** ** The pieces of a path and the words of a command *)

(** Splitting a path at the separator never fails, gives pieces without
    separator, and joining them with the separator gives the path back. *)
Theorem split_join_round_trip (w : string) :
  exists parts,
    Str.split "/" w = Ok parts
    /\ Forall (fun piece => Str.contains "/" piece = false) parts
    /\ Str.join "/" parts = w.
Proof.
  exists (Str.split_from "/" 0 w). split; [reflexivity|]. split.
  - apply split_pieces_clean.
  - exact (join_split "/" sep_nonempty sep_unbordered w).
Qed.

(** For an input path without a space, the command splits at spaces into
    exactly four words: the tool, the input path, the flag, and the
    output path. *)
Theorem space_free_path_gives_four_words (w : string) :
  Str.contains " " w = false ->
  exists c out,
    cmd_of w = Ok c
    /\ out_path w = Ok out
    /\ Str.split " " c = Ok ["./wat2wasm"; w; "-o"; out].
Proof.
  intros Hw.
  destruct (split_last_suffix "/" sep_nonempty sep_unbordered w)
    as (x & piece & Hp & Hx).
  assert (Hpiece : Str.contains " " piece = false).
  { rewrite Hx, contains_char_append in Hw. now apply orb_false_iff in Hw. }
  set (name := Str.replace ".wat" ".wasm" piece).
  assert (Hname : out_name w = Ok name).
  { unfold out_name. cbn [Str.split result_bind]. now rewrite Hp. }
  assert (Hout : Str.contains " " ("wasm/" ++ name) = false).
  { rewrite contains_char_append. cbn [orb].
    change (Str.contains " " "wasm/") with false. cbn [orb].
    apply replace_no_char; [reflexivity|exact Hpiece]. }
  exists ("./wat2wasm" ++ " " ++ w ++ " " ++ "-o" ++ " " ++ "wasm/" ++ name),
         ("wasm/" ++ name).
  split; [|split].
  - unfold cmd_of. rewrite Hname. cbn [result_bind]. f_equal.
    now rewrite !append_assoc.
  - unfold out_path. now rewrite Hname.
  - cbn [Str.split]. f_equal.
    rewrite (split_leftmost " " (char_nonempty " ") (char_unbordered " ")
               "./wat2wasm" _ eq_refl).
    rewrite (split_leftmost " " (char_nonempty " ") (char_unbordered " ")
               w _ Hw).
    rewrite (split_leftmost " " (char_nonempty " ") (char_unbordered " ")
               "-o" _ eq_refl).
    now rewrite (split_absent " " _ Hout).
Qed.

Lemma space_free_path_gives_four_words_witness :
  exists c out,
    cmd_of "wat/a.wat" = Ok c
    /\ out_path "wat/a.wat" = Ok out
    /\ Str.split " " c = Ok ["./wat2wasm"; "wat/a.wat"; "-o"; out].
Proof.
  apply (space_free_path_gives_four_words "wat/a.wat"). reflexivity.
Defined.

(** For an input path with a space, the command splits at spaces into
    more than four words: the path is put into the command as it is,
    without quoting. *)
Theorem space_in_path_gives_more_words (w : string) :
  Str.contains " " w = true ->
  exists c parts,
    cmd_of w = Ok c
    /\ Str.split " " c = Ok parts
    /\ 4 < List.length parts.
Proof.
  intros Hw.
  destruct (out_name_total w) as (name & Hname & _).
  destruct (leftmost_occurrence " " (char_nonempty " ") (char_unbordered " ") w Hw)
    as (a & b & Hab & Ha).
  set (c := "./wat2wasm" ++ " " ++ a ++ " " ++ b ++ " " ++ "-o wasm/" ++ name).
  exists c, (Str.split_from " " 0 c).
  split; [|split].
  - unfold cmd_of. rewrite Hname. cbn [result_bind]. f_equal.
    subst c. rewrite Hab. now rewrite !append_assoc.
  - reflexivity.
  - subst c.
    rewrite (split_leftmost " " (char_nonempty " ") (char_unbordered " ")
               "./wat2wasm" _ eq_refl).
    rewrite (split_leftmost " " (char_nonempty " ") (char_unbordered " ")
               a _ Ha).
    rewrite (split_at_occurrence " " (char_nonempty " ") (char_unbordered " ")
               b ("-o wasm/" ++ name)).
    destruct (split_last_piece " " (char_nonempty " ") (char_unbordered " ") b)
      as (p & Hp & _).
    rewrite Hp.
    change ("-o wasm/" ++ name) with ("-o" ++ " " ++ "wasm/" ++ name).
    rewrite (split_leftmost " " (char_nonempty " ") (char_unbordered " ")
               "-o" _ eq_refl).
    pose proof (split_from_nonempty " " 0 ("wasm/" ++ name)) as Hne.
    destruct (Str.split_from " " 0 ("wasm/" ++ name)) as [|q qs]; [congruence|].
    cbn [List.length]. rewrite !length_app. cbn [List.length]. lia.
Qed.

Lemma space_in_path_gives_more_words_witness :
  exists c parts,
    cmd_of "wat/my mod.wat" = Ok c
    /\ Str.split " " c = Ok parts
    /\ 4 < List.length parts.
Proof.
  apply (space_in_path_gives_more_words "wat/my mod.wat"). reflexivity.
Defined.

(** ** Order *)

(** The inputs are taken in the order of the directory listing, unsorted:
    in a valid working directory the selection is the listing with the
    hidden names and the names not ending in [.wat] struck out, each
    remaining name prefixed with [wat/]. *)
Theorem selection_keeps_listing_order (cwd : directory) :
  valid_cwd cwd = true ->
  wats cwd
  = map (fun n => "wat/" ++ n) (filter selected (Glob.listdir cwd "wat")).
Proof.
  intros Hv. rewrite wats_listing.
  apply map_ext_in. intros n [Hin _]%filter_In.
  apply join_wat, valid_name_no_sep, (listdir_valid cwd "wat" n Hv Hin).
Qed.

Lemma selection_keeps_listing_order_witness :
  wats sample_cwd_after
  = map (fun n => "wat/" ++ n)
        (filter selected (Glob.listdir sample_cwd_after "wat")).
Proof.
  apply (selection_keeps_listing_order sample_cwd_after). reflexivity.
Defined.
